(** * vite-plugin-virtual-mpa: the plugin core, embedded and verified

    This development embeds [workspaces/plugin/src/plugin.ts] in Rocq:
    the page table built by [configInit], the composite route pattern
    built by the [config] hook, the [transform] hook (entry injection
    followed by the EJS pass), the template watcher and the dev-server
    middleware (custom rewrites, then virtual-page routing).

    The first part holds the definitions.  The pieces of the JavaScript
    runtime that the plugin relies on come first: [String] methods, the
    pattern engine behind [RegExp], [String.prototype.replace] with its
    "$" patterns, and plain objects used as dictionaries, whose reads
    see the members of [Object.prototype] and whose keys are listed in
    [Object.keys] order.  Collaborators that live in other packages
    (vite, ejs, node's [path], [fs] and [url], the dev server) are the
    fields of the class [Host].  The plugin itself is the section
    [Plugin]: its closure variables are the record [state], a hook that
    assigns them returns the state after the call, and a call that
    throws is a [Throw] result.

    The second part holds the properties.

    JavaScript strings are modelled as [string], with 8-bit code units:
    this covers every character that has a meaning for the code under
    study. *)

From Stdlib Require Import String Ascii List Bool Arith NArith Lia.
Import ListNotations.
Open Scope string_scope.
Open Scope list_scope.
Open Scope nat_scope.

(** ** JavaScript strings *)

Module JsString.

(** [s.startsWith(p)] *)
Definition startsWith (s p : string) : bool := String.prefix p s.

(** [s.endsWith(p)] *)
Definition endsWith (s p : string) : bool :=
  let n := String.length s in
  let m := String.length p in
  if m <=? n then (substring (n - m) m s =? p)%string else false.

(** [s.includes(p)] *)
Fixpoint includes (s p : string) : bool :=
  String.prefix p s ||
  match s with
  | EmptyString => false
  | String _ s' => includes s' p
  end.

(** [l.join(sep)] *)
Definition join (sep : string) (l : list string) : string :=
  String.concat sep l.

(** Truthiness of a string value: only the empty string is falsy. *)
Definition truthy (s : string) : bool := negb (s =? EmptyString)%string.

(** Truthiness of [undefined | string]. *)
Definition truthy_opt (o : option string) : bool :=
  match o with
  | Some s => truthy s
  | None => false
  end.

(** Drop the first [n] code units. *)
Fixpoint drop (n : nat) (s : string) : string :=
  match n, s with
  | 0, _ => s
  | S n', String _ s' => drop n' s'
  | S _, EmptyString => EmptyString
  end.

(** Keep the first [n] code units. *)
Definition take (n : nat) (s : string) : string := substring 0 n s.

(** Every code unit of [s] satisfies [f]. *)
Fixpoint all_chars (f : ascii -> bool) (s : string) : bool :=
  match s with
  | EmptyString => true
  | String c s' => f c && all_chars f s'
  end.

End JsString.

(** ** Regular expressions

    The subset of ECMAScript patterns that the plugin's own patterns use,
    with the backtracking semantics of the language specification:
    ordered alternation, greedy and lazy [*], [+] and [?] (an iteration
    that consumes nothing is rejected, captures inside a quantified atom
    are reset at each iteration), capturing and non-capturing groups,
    [.], [^] and [$] (no flags).  Character classes, braced quantifiers,
    look-around, back-references and class escapes are outside the
    subset: the parser answers [Unsupported] on them. *)

Module RegExp.

Inductive quantifier := Star | Plus | Opt.

Inductive regex :=
| Empty
| Char (c : ascii)
| Dot
| AssertStart
| AssertEnd
| Seq (r1 r2 : regex)
| Alt (r1 r2 : regex)
| Repeat (q : quantifier) (greedy : bool) (r : regex)
| Group (capture : option nat) (r : regex).

(** *** Matching *)

Definition captures := list (nat * string).

Definition get_capture (n : nat) (caps : captures) : option string :=
  option_map snd (find (fun p => fst p =? n) caps).

Definition set_capture (n : nat) (v : string) (caps : captures) : captures :=
  (n, v) :: caps.

Fixpoint groups_of (r : regex) : list nat :=
  match r with
  | Seq r1 r2 | Alt r1 r2 => groups_of r1 ++ groups_of r2
  | Repeat _ _ r' => groups_of r'
  | Group (Some n) r' => n :: groups_of r'
  | Group None r' => groups_of r'
  | _ => []
  end.

Definition reset_captures (ns : list nat) (caps : captures) : captures :=
  filter (fun p => negb (existsb (Nat.eqb (fst p)) ns)) caps.

(** LineTerminator code units (within the 8-bit range). *)
Definition is_line_terminator (c : ascii) : bool :=
  (c =? "010")%char || (c =? "013")%char.

(** The text consumed between two suffixes of the input. *)
Definition consumed (s s' : string) : string :=
  JsString.take (String.length s - String.length s') s.

Definition cont := string -> captures -> option (string * captures).

Definition orelse {A} (x y : option A) : option A :=
  match x with
  | Some _ => x
  | None => y
  end.

(** [run total r s caps k]: match [r] at the suffix [s] of an input of
    length [total], then continue with [k]; [None] is failure, on which
    the caller backtracks. *)
Fixpoint run (total : nat) (r : regex) (s : string) (caps : captures)
         (k : cont) {struct r} : option (string * captures) :=
  match r with
  | Empty => k s caps
  | Char c =>
      match s with
      | String c' s' => if (c =? c')%char then k s' caps else None
      | EmptyString => None
      end
  | Dot =>
      match s with
      | String c' s' => if is_line_terminator c' then None else k s' caps
      | EmptyString => None
      end
  | AssertStart => if String.length s =? total then k s caps else None
  | AssertEnd =>
      match s with
      | EmptyString => k s caps
      | String _ _ => None
      end
  | Seq r1 r2 => run total r1 s caps (fun s' caps' => run total r2 s' caps' k)
  | Alt r1 r2 => orelse (run total r1 s caps k) (run total r2 s caps k)
  | Group None r' => run total r' s caps k
  | Group (Some n) r' =>
      run total r' s caps
        (fun s' caps' => k s' (set_capture n (consumed s s') caps'))
  | Repeat q greedy r' =>
      let inner := groups_of r' in
      let choose (again skip : option (string * captures)) :=
        if greedy then orelse again skip else orelse skip again in
      let many :=
        fix many (fuel : nat) (s : string) (caps : captures) :=
          match fuel with
          | 0 => k s caps
          | S fuel' =>
              choose
                (run total r' s (reset_captures inner caps)
                   (fun s' caps' =>
                      if String.length s' <? String.length s
                      then many fuel' s' caps'
                      else None))
                (k s caps)
          end in
      match q with
      | Star => many (String.length s) s caps
      | Plus =>
          run total r' s (reset_captures inner caps)
            (fun s' caps' => many (String.length s') s' caps')
      | Opt =>
          choose
            (run total r' s (reset_captures inner caps)
               (fun s' caps' =>
                  if String.length s' <? String.length s
                  then k s' caps'
                  else None))
            (k s caps)
      end
  end.

(** The result of a successful [exec]: [index], the matched text
    (element 0 of the match array) and the captures. *)
Record match_result := MatchResult {
  index : nat;
  matched : string;
  groups : captures
}.

(** [m[i]] for [i >= 1]: the text of capture [i], or [undefined]. *)
Definition group (i : nat) (m : match_result) : option string :=
  get_capture i (groups m).

Definition accept : cont := fun s caps => Some (s, caps).

(** Try each start position from the left, as [RegExp.prototype.exec]
    does for a pattern without the sticky flag. *)
Fixpoint exec_from (total : nat) (r : regex) (s : string) : option match_result :=
  match run total r s [] accept with
  | Some (rest, caps) =>
      Some (MatchResult (total - String.length s) (consumed s rest) caps)
  | None =>
      match s with
      | EmptyString => None
      | String _ s' => exec_from total r s'
      end
  end.

Definition exec (r : regex) (s : string) : option match_result :=
  exec_from (String.length s) r s.

(** [r.test(s)] *)
Definition test (r : regex) (s : string) : bool :=
  match exec r s with
  | Some _ => true
  | None => false
  end.

(** *** RegExp objects: flags and [lastIndex]

    A pattern with the global or the sticky flag reads and writes the
    [lastIndex] of its object, so what [test], [exec] and [match] give on
    one object depends on the calls made before. *)

Record regexp := {
  pattern : regex;
  global : bool;
  sticky : bool;
  (** one of the flags i, m, s, u and v, which change what the pattern
      matches; [run] does not cover them *)
  other_flags : bool;
  (** [ToLength] of the [lastIndex] property *)
  lastIndex : nat
}.

Definition set_lastIndex (i : nat) (re : regexp) : regexp :=
  {| pattern := pattern re; global := global re; sticky := sticky re;
     other_flags := other_flags re; lastIndex := i |}.

(** The match that starts at [s] itself, a suffix of an input of length
    [total]: what a sticky pattern looks for. *)
Definition exec_at (total : nat) (r : regex) (s : string) : option match_result :=
  match run total r s [] accept with
  | Some (rest, caps) =>
      Some (MatchResult (total - String.length s) (consumed s rest) caps)
  | None => None
  end.

(** The end index [e] of a match. *)
Definition end_index (m : match_result) : nat :=
  index m + String.length (matched m).

(** [RegExpBuiltinExec(R, S)]: the match, [None] for [null], and the
    object as the call leaves it.  Without the global and the sticky flag
    [lastIndex] is neither read nor written.  With one of them the search
    starts at [lastIndex] (and, when sticky, is tried there only); a match
    sets [lastIndex] to its end index, a failure to 0. *)
Definition regexp_exec (re : regexp) (s : string) : option match_result * regexp :=
  if global re || sticky re then
    if String.length s <? lastIndex re then (None, set_lastIndex 0 re)
    else
      let found :=
        if sticky re
        then exec_at (String.length s) (pattern re) (JsString.drop (lastIndex re) s)
        else exec_from (String.length s) (pattern re) (JsString.drop (lastIndex re) s) in
      match found with
      | Some m => (Some m, set_lastIndex (end_index m) re)
      | None => (None, set_lastIndex 0 re)
      end
  else (exec (pattern re) s, re).

(** [R.test(S)]: whether [RegExpExec] gives a match, and the object as
    the call leaves it. *)
Definition regexp_test (re : regexp) (s : string) : bool * regexp :=
  match regexp_exec re s with
  | (Some _, re') => (true, re')
  | (None, re') => (false, re')
  end.

(** What [S.match(R)] returns when it is not [null]: the array of [exec],
    or, for a pattern with the global flag, the texts of all matches. *)
Inductive match_array :=
| ExecResult (m : match_result)
| AllMatches (texts : list string).

(** The loop of [RegExp.prototype[Symbol.match]] for a pattern with the
    global flag: [exec] until it gives [null], stepping over an empty
    match.  Every round but the last moves [lastIndex] forward, so
    [String.length s + 2] rounds are enough. *)
Fixpoint match_all (fuel : nat) (re : regexp) (s : string) : list string * regexp :=
  match fuel with
  | 0 => ([], re)
  | S fuel' =>
      match regexp_exec re s with
      | (None, re') => ([], re')
      | (Some m, re') =>
          let next :=
            match matched m with
            | EmptyString => set_lastIndex (S (lastIndex re')) re'
            | String _ _ => re'
            end in
          let (texts, final) := match_all fuel' next s in
          (matched m :: texts, final)
      end
  end.

(** [S.match(R)]: without the global flag it is [RegExpExec(R, S)]; with
    it, [lastIndex] is set to 0 and all matches are collected, [null]
    standing for none. *)
Definition string_match (s : string) (re : regexp) : option match_array * regexp :=
  if global re then
    let (texts, re') := match_all (S (S (String.length s))) (set_lastIndex 0 re) s in
    (match texts with
     | [] => None
     | _ :: _ => Some (AllMatches texts)
     end, re')
  else
    match regexp_exec re s with
    | (Some m, re') => (Some (ExecResult m), re')
    | (None, re') => (None, re')
    end.

(** The RegExp objects a program holds, by reference: two holders of one
    reference share the object and its [lastIndex]. *)
Definition regexps := nat -> regexp.

Definition store_regexp (ref : nat) (re : regexp) (h : regexps) : regexps :=
  fun r => if r =? ref then re else h r.

(** *** Parsing: [new RegExp(source)] *)

Inductive parse_result :=
| Parsed (r : regex)
| SyntaxError
| Unsupported.

(** What the last term of the current alternative allows next. *)
Inductive last_term := NoAtom | Atom | Quantified | LazyQuantified.

Record frame := Frame {
  f_capture : option nat;
  f_alts : list regex;      (* finished alternatives, last first *)
  f_terms : list regex;     (* terms of the current alternative, last first *)
  f_last : last_term
}.

Definition open_frame (cap : option nat) : frame := Frame cap [] [] NoAtom.

Fixpoint seq_of (ts : list regex) : regex :=
  match ts with
  | [] => Empty
  | t :: ts' => Seq t (seq_of ts')
  end.

Fixpoint alt_of (first : regex) (others : list regex) : regex :=
  match others with
  | [] => first
  | r :: rs => Alt first (alt_of r rs)
  end.

(** The disjunction a frame stands for once it is closed. *)
Definition close_frame (f : frame) : regex :=
  match rev (seq_of (rev (f_terms f)) :: f_alts f) with
  | [] => Empty
  | r :: rs => alt_of r rs
  end.

Definition push_atom (t : regex) (f : frame) : frame :=
  Frame (f_capture f) (f_alts f) (t :: f_terms f) Atom.

Definition push_assertion (t : regex) (f : frame) : frame :=
  Frame (f_capture f) (f_alts f) (t :: f_terms f) NoAtom.

Definition next_alternative (f : frame) : frame :=
  Frame (f_capture f) (seq_of (rev (f_terms f)) :: f_alts f) [] NoAtom.

(** A quantifier character applied to the last term; [None] when there
    is nothing to repeat. *)
Definition quantify (q : quantifier) (f : frame) : option frame :=
  match f_last f, f_terms f with
  | Atom, t :: ts =>
      Some (Frame (f_capture f) (f_alts f) (Repeat q true t :: ts) Quantified)
  | Quantified, Repeat q' _ t :: ts =>
      match q with
      | Opt =>
          Some (Frame (f_capture f) (f_alts f) (Repeat q' false t :: ts)
                  LazyQuantified)
      | _ => None
      end
  | _, _ => None
  end.

(** Characters that may follow a backslash as an identity escape here:
    the syntax characters and [/]. *)
Definition is_identity_escape (c : ascii) : bool :=
  existsb (Ascii.eqb c)
    ["^"; "$"; "\"; "."; "*"; "+"; "?"; "("; ")"; "["; "]"; "{"; "}"; "|"; "/"]%char.

Fixpoint parse_loop (p : string) (next_group : nat) (cur : frame)
         (stack : list frame) {struct p} : parse_result :=
  match p with
  | EmptyString =>
      match stack with
      | [] => Parsed (close_frame cur)
      | _ :: _ => SyntaxError
      end
  | String "(" p' =>
      match p' with
      | String "?" (String ":" p'') =>
          parse_loop p'' next_group (open_frame None) (cur :: stack)
      | String "?" _ => Unsupported
      | _ =>
          parse_loop p' (S next_group) (open_frame (Some next_group))
            (cur :: stack)
      end
  | String ")" p' =>
      match stack with
      | [] => SyntaxError
      | parent :: stack' =>
          parse_loop p' next_group
            (push_atom (Group (f_capture cur) (close_frame cur)) parent)
            stack'
      end
  | String "|" p' => parse_loop p' next_group (next_alternative cur) stack
  | String "*" p' =>
      match quantify Star cur with
      | Some cur' => parse_loop p' next_group cur' stack
      | None => SyntaxError
      end
  | String "+" p' =>
      match quantify Plus cur with
      | Some cur' => parse_loop p' next_group cur' stack
      | None => SyntaxError
      end
  | String "?" p' =>
      match quantify Opt cur with
      | Some cur' => parse_loop p' next_group cur' stack
      | None => SyntaxError
      end
  | String "\" p' =>
      match p' with
      | EmptyString => SyntaxError
      | String e p'' =>
          if is_identity_escape e
          then parse_loop p'' next_group (push_atom (Char e) cur) stack
          else Unsupported
      end
  | String "." p' => parse_loop p' next_group (push_atom Dot cur) stack
  | String "^" p' => parse_loop p' next_group (push_assertion AssertStart cur) stack
  | String "$" p' => parse_loop p' next_group (push_assertion AssertEnd cur) stack
  | String "[" _ => Unsupported
  | String "{" _ => Unsupported
  | String c p' => parse_loop p' next_group (push_atom (Char c) cur) stack
  end.

(** [new RegExp(source)], captures numbered from 1 by their opening
    parenthesis. *)
Definition parse (source : string) : parse_result :=
  parse_loop source 1 (open_frame None) [].

(** *** Literal texts and alternations, as the parser builds them *)

(** The terms of a literal text. *)
Fixpoint lits (w : string) : list regex :=
  match w with
  | EmptyString => []
  | String c w' => Char c :: lits w'
  end.

(** The pattern of a literal text. *)
Definition literal (w : string) : regex := seq_of (lits w).

(** The disjunction of a list of alternatives. *)
Definition alt_list (l : list regex) : regex :=
  match l with
  | [] => Empty
  | r :: rs => alt_of r rs
  end.

(** Characters that stand for themselves in a pattern. *)
Definition pattern_char (c : ascii) : bool :=
  negb (existsb (Ascii.eqb c)
          ["("; ")"; "|"; "*"; "+"; "?"; "\"; "."; "^"; "$"; "["; "{"]%char).

(** The frame after the parser has read a literal text. *)
Fixpoint push_lits (w : string) (cur : frame) : frame :=
  match w with
  | EmptyString => cur
  | String c w' => push_lits w' (push_atom (Char c) cur)
  end.

End RegExp.

(** ** [String.prototype.replace] with a pattern and a replacement string *)

Module JsReplace.
Import RegExp.

Definition is_digit (c : ascii) : bool :=
  (48 <=? nat_of_ascii c) && (nat_of_ascii c <=? 57).

Definition digit_value (c : ascii) : nat := nat_of_ascii c - 48.

(** The text of capture [i] in a replacement: the capture, or the empty
    string when the group did not take part in the match. *)
Definition capture_text (i : nat) (m : match_result) : string :=
  match group i m with
  | Some t => t
  | None => EmptyString
  end.

(** GetSubstitution: expand the [$] patterns of [template] for the match
    [m] in [str]; [ncaps] is the number of capturing groups.  There are
    no named groups in the subset, so [$<] stays as it is. *)
Fixpoint get_substitution (ncaps : nat) (m : match_result) (str : string)
         (template : string) {struct template} : string :=
  match template with
  | EmptyString => EmptyString
  | String "$" rest =>
      match rest with
      | String "$" rest' =>
          String "$" (get_substitution ncaps m str rest')
      | String "&" rest' =>
          matched m ++ get_substitution ncaps m str rest'
      | String "`" rest' =>
          JsString.take (index m) str ++ get_substitution ncaps m str rest'
      | String "'" rest' =>
          JsString.drop (index m + String.length (matched m)) str
            ++ get_substitution ncaps m str rest'
      | String d1 rest' =>
          if is_digit d1 then
            match rest' with
            | String d2 rest'' =>
                let two := 10 * digit_value d1 + digit_value d2 in
                if is_digit d2 && (1 <=? two) && (two <=? ncaps) then
                  capture_text two m ++ get_substitution ncaps m str rest''
                else if (1 <=? digit_value d1) && (digit_value d1 <=? ncaps) then
                  capture_text (digit_value d1) m
                    ++ get_substitution ncaps m str rest'
                else String "$" (get_substitution ncaps m str rest)
            | EmptyString =>
                if (1 <=? digit_value d1) && (digit_value d1 <=? ncaps) then
                  capture_text (digit_value d1) m
                else String "$" (get_substitution ncaps m str rest)
            end
          else String "$" (get_substitution ncaps m str rest)
      | EmptyString => String "$" EmptyString
      end
  | String c rest => String c (get_substitution ncaps m str rest)
  end.

(** [str.replace(r, template)] for a pattern without the global flag:
    only the leftmost match is replaced. *)
Definition replace (r : regex) (str template : string) : string :=
  match exec r str with
  | None => str
  | Some m =>
      JsString.take (index m) str
        ++ get_substitution (List.length (groups_of r)) m str template
        ++ JsString.drop (index m + String.length (matched m)) str
  end.

End JsReplace.

(** ** Plain objects used as dictionaries

    [{}] is an ordinary object: reading [o[k]] finds own properties first
    and then the members of [Object.prototype], and writing
    [o["__proto__"]] runs the inherited setter instead of creating a
    property. *)

Module JsObject.

(** What a value is as far as an object holding it is concerned:
    whether it is an object (so that it can become a prototype) and
    which property names it then carries. *)
Class Shape (V : Type) := {
  is_object : V -> bool;
  has_field : V -> string -> bool
}.

#[export] Instance string_shape : Shape string := {
  is_object := fun _ => false;
  has_field := fun _ _ => false
}.

(** Own properties in creation order, and the object installed as
    prototype by an assignment to [__proto__], if any. *)
Record obj (V : Type) := Obj {
  own : list (string * V);
  proto : option V
}.
Arguments Obj {V}.
Arguments own {V}.
Arguments proto {V}.

Definition empty {V} : obj V := Obj [] None.

(** Property names of [Object.prototype]; each holds a truthy value. *)
Definition object_prototype_members : list string :=
  [ "constructor"; "__defineGetter__"; "__defineSetter__"; "hasOwnProperty";
    "__lookupGetter__"; "__lookupSetter__"; "isPrototypeOf";
    "propertyIsEnumerable"; "toString"; "valueOf"; "__proto__";
    "toLocaleString" ].

Definition is_prototype_member (k : string) : bool :=
  existsb (String.eqb k) object_prototype_members.

Fixpoint own_get {V} (l : list (string * V)) (k : string) : option V :=
  match l with
  | [] => None
  | (k', v) :: l' => if (k' =? k)%string then Some v else own_get l' k
  end.

(** CreateDataProperty on the list of own properties: an existing key
    keeps its place. *)
Fixpoint define {V} (l : list (string * V)) (k : string) (v : V)
  : list (string * V) :=
  match l with
  | [] => [(k, v)]
  | (k', v') :: l' =>
      if (k' =? k)%string then (k', v) :: l' else (k', v') :: define l' k v
  end.

(** CopyDataProperties: the properties of [l] defined over [acc], in
    order. *)
Definition define_all {V} (acc l : list (string * V)) : list (string * V) :=
  fold_left (fun acc kv => define acc (fst kv) (snd kv)) l acc.

(** The outcome of reading [o[k]]. *)
Inductive property (V : Type) :=
| Own (v : V)    (* an own property, or the installed prototype itself *)
| Inherited      (* a member of Object.prototype: truthy, not a V *)
| Foreign        (* a field of the installed prototype: not modelled *)
| Missing.       (* undefined *)
Arguments Own {V}.
Arguments Inherited {V}.
Arguments Foreign {V}.
Arguments Missing {V}.

(** [o[k]] *)
Definition get {V} `{Shape V} (o : obj V) (k : string) : property V :=
  match own_get (own o) k with
  | Some v => Own v
  | None =>
      match proto o with
      | Some p =>
          if (k =? "__proto__")%string then Own p
          else if has_field p k then Foreign
          else if is_prototype_member k then Inherited
          else Missing
      | None => if is_prototype_member k then Inherited else Missing
      end
  end.

(** [o[k] = v] *)
Definition set {V} `{Shape V} (o : obj V) (k : string) (v : V) : obj V :=
  if (k =? "__proto__")%string
  then (if is_object v then Obj (own o) (Some v) else o)
  else Obj (define (own o) k v) (proto o).

(** Array-index keys: canonical decimal strings up to 2^32 - 2. *)
Fixpoint all_digits (s : string) : bool :=
  match s with
  | EmptyString => true
  | String c s' => JsReplace.is_digit c && all_digits s'
  end.

Fixpoint decimal (acc : N) (s : string) : N :=
  match s with
  | EmptyString => acc
  | String c s' => decimal (10 * acc + N.of_nat (JsReplace.digit_value c))%N s'
  end.

Definition array_index (k : string) : option N :=
  match k with
  | EmptyString => None
  | String c rest =>
      if all_digits k
         && (negb (c =? "0")%char || (rest =? EmptyString)%string)
         && (String.length k <=? 10)
         && (decimal 0 k <=? 4294967294)%N
      then Some (decimal 0 k)
      else None
  end.

Fixpoint insert_index (k : string) (n : N) (l : list (string * N))
  : list (string * N) :=
  match l with
  | [] => [(k, n)]
  | (k', n') :: l' =>
      if (n <=? n')%N then (k, n) :: l else (k', n') :: insert_index k n l'
  end.

Fixpoint index_keys (ks : list string) : list (string * N) :=
  match ks with
  | [] => []
  | k :: ks' =>
      match array_index k with
      | Some n => insert_index k n (index_keys ks')
      | None => index_keys ks'
      end
  end.

Definition is_array_index (k : string) : bool :=
  match array_index k with
  | Some _ => true
  | None => false
  end.

(** [Object.keys(o)]: array-index keys in ascending numeric order, then
    the other keys in creation order. *)
Definition keys {V} (o : obj V) : list string :=
  let ks := map fst (own o) in
  map fst (index_keys ks) ++ filter (fun k => negb (is_array_index k)) ks.

End JsObject.

Import RegExp.

(** ** Results of running plugin code *)

Inductive exn :=
| Error (message : string)   (* [new Error(message)] *)
| TypeError                  (* a property read on [undefined] *)
| RegExpSyntaxError          (* [new RegExp] on an invalid pattern *)
| HostError (what : string). (* raised inside a collaborator *)

Inductive result (A : Type) :=
| Ok (a : A)
| Throw (e : exn)
| Unmodelled.                (* the run leaves the modelled fragment *)
Arguments Ok {A}.
Arguments Throw {A}.
Arguments Unmodelled {A}.

Definition bind {A B} (x : result A) (f : A -> result B) : result B :=
  match x with
  | Ok a => f a
  | Throw e => Throw e
  | Unmodelled => Unmodelled
  end.

Notation "x <- c1 ;; c2" := (bind c1 (fun x => c2))
  (at level 61, c1 at next level, right associativity).

(** ** Collaborators *)

(** What [pluginContainer.load] resolves to, when not [null]. *)
Inductive LoadResult :=
| LoadString (code : string)
| LoadObject (code : string).

Definition load_code (l : LoadResult) : string :=
  match l with
  | LoadString code => code
  | LoadObject code => code
  end.

(** [!loadResult] *)
Definition load_falsy (l : option LoadResult) : bool :=
  match l with
  | None => true
  | Some (LoadString code) => negb (JsString.truthy code)
  | Some (LoadObject _) => false
  end.

Class Host := {
  (** values held by [resolvedConfig.env] and [page.data] *)
  value : Type;
  (** vite's [normalizePath] *)
  normalizePath : string -> string;
  (** [ejs.render(template, data, {filename, root})] *)
  ejs_render : string -> list (string * value) -> string -> string -> result string;
  (** [color.cyan(pkgName)] and [color.red] *)
  pluginName : string;
  color_red : string -> string;
  (** node's [path] *)
  path_relative : string -> string -> string;
  path_join : list string -> string;
  (** node's [fs] *)
  fs_readdirSync : string -> result (list string);
  fs_isDirectory : string -> result bool;
  fs_readFileSync : string -> result string;
  (** node's [url.parse] *)
  Url : Type;
  url_parse : string -> Url;
  url_pathname : Url -> option string;
  (** [evaluateRewriteRule] of [./utils], whose source is not among the
      sources, and the type of a rule's [to] *)
  RewriteTo : Type;
  evaluateRewriteRule : Url -> match_array -> RewriteTo -> result string;
  (** the dev server: [pluginContainer.load] and [transformIndexHtml] *)
  pluginContainer_load : string -> result (option LoadResult);
  transformIndexHtml : string -> string -> string -> result string
}.

(** ** The plugin *)

Section Plugin.

Context `{host : Host}.
Import JsString JsObject.

(** *** Types of [./api-types] *)

(** Modelled from the spec: the [Page] type of [./api-types], whose
    declaration is not among the sources.  A page has a name and,
    optionally, a served path, a script entry, a template and a mapping of
    render variables; [None] stands for [undefined]. *)
Record Page := {
  name : string;
  filename : option string;
  entry : option string;
  template : option string;
  data : option (list (string * value))
}.

Definition defined {A} (o : option A) : bool :=
  match o with
  | Some _ => true
  | None => false
  end.

(** A page is an object; its property names are those of the fields
    that are set. *)
#[export] Instance page_shape : Shape Page := {
  is_object := fun _ => true;
  has_field := fun p k =>
    (k =? "name")%string
    || ((k =? "filename")%string && defined (filename p))
    || ((k =? "entry")%string && defined (entry p))
    || ((k =? "template")%string && defined (template p))
    || ((k =? "data")%string && defined (data p))
}.

(** Modelled from the spec: the [ScanOptions] type of [./api-types], as
    [scanPages] reads it.  [scanDirs] is the list that
    [[scanDirs].flat()] yields. *)
Record ScanOptions := {
  scanDirs : list string;
  entryFile : option string;
  scan_filename : option (string -> string)
}.

(** A rule of [connect-history-api-fallback]: [from] is a RegExp
    object, held by reference.  The handler calls [test] and [match] on
    it, which leave their [lastIndex] in the object, for the next call
    and for every rule that shares it. *)
Record Rewrite := {
  from : nat;
  to : RewriteTo
}.

(** Modelled from the spec: the [MpaOptions] type of [./api-types], as
    [createMpaPlugin] destructures it.  [verbose] only drives logging,
    [watchOptions] only registers the user's handler (which may call
    [configInit] as [reloadPages]) and [previewRewrites] only configures
    the preview server; they are left out. *)
Record MpaOptions := {
  opt_template : option string;
  opt_pages : option (list Page);
  rewrites : option (list Rewrite);
  scanOptions : option ScanOptions
}.

Definition default {A} (o : option A) (d : A) : A :=
  match o with
  | Some a => a
  | None => d
  end.

Variable options : MpaOptions.

(** [template = 'index.html'], [pages = []] *)
Definition default_template : string := default (opt_template options) "index.html".
Definition pages : list Page := default (opt_pages options) [].

Record ResolvedConfig := {
  root : string;
  base : string;
  env : list (string * value)
}.

Record RegExpObject := {
  source : string;
  compiled : regex
}.

(** The variables closed over by the hooks. *)
Record state := {
  inputMap : obj string;
  virtualPageMap : obj Page;
  tplSet : list string;
  rewriteReg : option RegExpObject;
  resolvedConfig : option ResolvedConfig
}.

Definition initial_state : state := {|
  inputMap := empty;
  virtualPageMap := empty;
  tplSet := [];
  rewriteReg := None;
  resolvedConfig := None
|}.

(** *** [Set] of strings *)

Definition set_has (l : list string) (x : string) : bool :=
  existsb (String.eqb x) l.

Definition set_add (l : list string) (x : string) : list string :=
  if set_has l x then l else l ++ [x].

(** *** [throwError] *)

Definition throwError {A} (message : string) : result A :=
  Throw (Error ("[" ++ pluginName ++ "]: " ++ color_red message)).

(** *** [scanPages] *)

Fixpoint scan_entries (so : ScanOptions) (entryDir : string)
         (names : list string) : result (list Page) :=
  match names with
  | [] => Ok []
  | n :: rest =>
      let dir := path_join [entryDir; n] in
      isdir <- fs_isDirectory dir ;;
      if negb isdir then scan_entries so entryDir rest
      else
        more <- scan_entries so entryDir rest ;;
        Ok ({| name := n;
               filename := option_map (fun f => f n) (scan_filename so);
               entry := if truthy_opt (entryFile so)
                        then Some (path_join ["/"; dir; default (entryFile so) EmptyString])
                        else None;
               template := None;
               data := None |} :: more)
  end.

Fixpoint scan_dirs (so : ScanOptions) (dirs : list string) : result (list Page) :=
  match dirs with
  | [] => Ok []
  | entryDir :: rest =>
      names <- fs_readdirSync entryDir ;;
      found <- scan_entries so entryDir names ;;
      more <- scan_dirs so rest ;;
      Ok (found ++ more)
  end.

Definition scanPages (so : option ScanOptions) : result (list Page) :=
  match so with
  | None => Ok []
  | Some so => scan_dirs so (filter truthy (scanDirs so))
  end.

(** *** [configInit] *)

Record tables := {
  tempInputMap : obj string;
  tempVirtualPageMap : obj Page;
  tempTplSet : list string
}.

(** [page.filename || `${page.name}.html`] *)
Definition entryPath (page : Page) : string :=
  match filename page with
  | Some f => if truthy f then f else name page ++ ".html"
  | None => name page ++ ".html"
  end.

(** Truthiness of what [o[k]] yields, for string values. *)
Definition truthy_property (p : property string) : bool :=
  match p with
  | Own v => truthy v
  | Inherited => true
  | Foreign => true
  | Missing => false
  end.

Definition register (page : Page) (t : tables) : tables := {|
  tempInputMap := set (tempInputMap t) (name page) (entryPath page);
  tempVirtualPageMap := set (tempVirtualPageMap t) (entryPath page) page;
  tempTplSet :=
    match template page with
    | Some tpl => if truthy tpl then set_add (tempTplSet t) tpl else tempTplSet t
    | None => tempTplSet t
    end
|}.

(** The body of the [for] loop, over the remaining pages. *)
Fixpoint configInit_loop (ps : list Page) (t : tables) : result tables :=
  match ps with
  | [] => Ok t
  | page :: rest =>
      if startsWith (entryPath page) "/" then
        throwError ("Make sure the path relative, received '" ++ entryPath page ++ "'")
      else if includes (name page) "/" then
        throwError ("Page name shouldn't include '/', received '" ++ name page ++ "'")
      else if truthy_opt (entry page)
              && negb (startsWith (default (entry page) EmptyString) "/") then
        throwError ("Entry must be an absolute path relative to the project root, received '"
                      ++ default (entry page) EmptyString ++ "'")
      else if truthy_property (get (tempInputMap t) (name page)) then
        configInit_loop rest t
      else configInit_loop rest (register page t)
  end.

Definition fresh_tables : tables := {|
  tempInputMap := empty;
  tempVirtualPageMap := empty;
  tempTplSet := [default_template]
|}.

(** The three assignments that close [configInit]. *)
Definition publish (t : tables) (st : state) : state := {|
  inputMap := tempInputMap t;
  virtualPageMap := tempVirtualPageMap t;
  tplSet := tempTplSet t;
  rewriteReg := rewriteReg st;
  resolvedConfig := resolvedConfig st
|}.

(** [configInit(pages)]: the outcome of the call and the closure
    variables after it. *)
Definition configInit (ps : list Page) (st : state) : result unit * state :=
  match (scanned <- scanPages (scanOptions options) ;;
         configInit_loop (ps ++ scanned) fresh_tables) with
  | Ok t => (Ok tt, publish t st)
  | Throw e => (Throw e, st)
  | Unmodelled => (Unmodelled, st)
  end.

(** *** The [config] hook *)

(** [`${x}`] for [x : string | undefined] *)
Definition interpolate (x : option string) : string := default x "undefined".

Definition rewriteReg_source (config_base : option string) (st : state) : string :=
  normalizePath ("/" ++ interpolate config_base ++ "/")
    ++ "(" ++ join "|" (keys (inputMap st)) ++ ")(?:\.html?)?(\?|#|$).*".

(** What the hook returns to vite, as far as it depends on the pages. *)
Record ConfigResult := {
  optimizeDeps_entries : list string;
  rollup_input : obj string
}.

Definition config (config_base : option string) (st : state)
  : result ConfigResult * state :=
  match configInit pages st with
  | (Ok _, st1) =>
      let src := rewriteReg_source config_base st1 in
      match parse src with
      | Parsed r =>
          let st2 := {| inputMap := inputMap st1;
                        virtualPageMap := virtualPageMap st1;
                        tplSet := tplSet st1;
                        rewriteReg := Some {| source := src; compiled := r |};
                        resolvedConfig := resolvedConfig st1 |} in
          (Ok {| optimizeDeps_entries :=
                   filter truthy (map (fun v => default (entry v) EmptyString) pages);
                 rollup_input := inputMap st2 |}, st2)
      | SyntaxError => (Throw RegExpSyntaxError, st1)
      | Unsupported => (Unmodelled, st1)
      end
  | (Throw e, st1) => (Throw e, st1)
  | (Unmodelled, st1) => (Unmodelled, st1)
  end.

(** The [configResolved] hook. *)
Definition configResolved (rc : ResolvedConfig) (st : state) : state := {|
  inputMap := inputMap st;
  virtualPageMap := virtualPageMap st;
  tplSet := tplSet st;
  rewriteReg := rewriteReg st;
  resolvedConfig := Some rc
|}.

(** *** [transform] *)

(** [/<\/body>/] *)
Definition bodyInject : regex :=
  seq_of (map Char (list_ascii_of_string "</body>")).

Definition dquote : string := String "034" EmptyString.
Definition newline : string := String "010" EmptyString.

(** The replacement text handed to [replace] for an entry. *)
Definition script_tag (src : string) : string :=
  "<script type=" ++ dquote ++ "module" ++ dquote
    ++ " src=" ++ dquote ++ src ++ dquote ++ "></script>".

Definition injection (page_entry : string) : string :=
  script_tag (normalizePath page_entry) ++ newline ++ "</body>".

(** The first argument of [ejs.render]. *)
Definition inject_entry (page_entry : option string) (fileContent : string) : string :=
  match page_entry with
  | Some e =>
      if truthy e then JsReplace.replace bodyInject fileContent (injection e)
      else fileContent
  | None => fileContent
  end.

(** [{ ...a, ...b }] on own properties *)
Definition spread (a b : list (string * value)) : list (string * value) :=
  define_all (define_all [] a) b.

(** [{ ...resolvedConfig.env, ...page.data }] *)
Definition render_scope (rc : ResolvedConfig) (page_data : option (list (string * value)))
  : list (string * value) :=
  spread (env rc) (default page_data []).

Definition render (st : state) (page_entry : option string)
           (page_data : option (list (string * value)))
           (fileContent id : string) : result (option string) :=
  let input := inject_entry page_entry fileContent in
  match resolvedConfig st with
  | None => Throw TypeError
  | Some rc =>
      out <- ejs_render input (render_scope rc page_data) id (root rc) ;;
      Ok (Some out)
  end.

(** [transform(fileContent, id)]; [Ok None] is [null]. *)
Definition transform (st : state) (fileContent id : string) : result (option string) :=
  match get (virtualPageMap st) id with
  | Missing => Ok None
  | Own page => render st (entry page) (data page) fileContent id
  | Inherited => render st None None fileContent id
  | Foreign => Unmodelled
  end.

(** *** [resolveId] and [load] *)

(** [resolveId(id, importer, options)], with [isEntry] for
    [options.isEntry]; [Ok None] is [undefined]. *)
Definition resolveId (st : state) (id : string) (isEntry : bool)
  : result (option string) :=
  if isEntry then
    match get (virtualPageMap st) id with
    | Missing => Ok None
    | Own _ => Ok (Some id)
    | Inherited => Ok (Some id)
    | Foreign => Unmodelled
    end
  else Ok None.

Definition page_template (page_tpl : option string) : string :=
  match page_tpl with
  | Some tpl => if truthy tpl then tpl else default_template
  | None => default_template
  end.

Definition load (st : state) (id : string) : result (option string) :=
  match get (virtualPageMap st) id with
  | Missing => Ok None
  | Own page =>
      html <- fs_readFileSync (page_template (template page)) ;; Ok (Some html)
  | Inherited => html <- fs_readFileSync default_template ;; Ok (Some html)
  | Foreign => Unmodelled
  end.

(** *** The template watcher of [configureServer] *)

Inductive ws_message := FullReload (path : string).

(** [watcher.on('change', file => ...)]: the messages sent. *)
Definition on_change (st : state) (file : string) : result (list ws_message) :=
  if endsWith file ".html" then
    match resolvedConfig st with
    | None => Throw TypeError
    | Some rc =>
        if set_has (tplSet st) (path_relative (root rc) file)
        then Ok [FullReload "*"]
        else Ok []
    end
  else Ok [].

(** *** The middleware of [configureServer] *)

Record Request := {
  method : option string;
  accept_header : option string;
  originalUrl : option string;
  url : option string
}.

Record Response := {
  content_type : string;
  statusCode : nat;
  body : string
}.

Inductive outcome :=
| PassThrough                    (* [next()], request untouched *)
| Rewritten (target : string)    (* [req.url = target; next()] *)
| Served (fileName : string) (res : Response).

(** [/.*(text\/html|application\/xhtml\+xml).*/] *)
Definition html_accept_source : string :=
  ".*(text\/html|application\/xhtml\+xml).*".

Definition accepts_html (accept : string) : bool :=
  match parse html_accept_source with
  | Parsed r => test r accept
  | _ => false
  end.

(** [pathname.match(rewriteReg)?.[1]] *)
Definition inputMapKey (st : state) (pathname : string) : option string :=
  match rewriteReg st with
  | Some re =>
      match exec (compiled re) pathname with
      | Some m => group 1 m
      | None => None
      end
  | None => None
  end.

(** [inputMapKey ? inputMap[inputMapKey] : null], with [Missing] for
    both [null] and [undefined]. *)
Definition fileName_of (st : state) (pathname : string) : property string :=
  match inputMapKey st pathname with
  | Some key => if truthy key then get (inputMap st) key else Missing
  | None => Missing
  end.

(** [rewrites.find(item => item.from.test(pathname))]: the first rule
    whose test passes, and the RegExp objects as the tests leave them.
    The rules behind the one found are not tested. *)
Fixpoint find_rewrite (rules : list Rewrite) (pathname : string) (h : regexps)
  : result (option Rewrite) * regexps :=
  match rules with
  | [] => (Ok None, h)
  | item :: rest =>
      if other_flags (h (from item)) then (Unmodelled, h)
      else
        let (passed, re) := regexp_test (h (from item)) pathname in
        let h' := store_regexp (from item) re h in
        if passed then (Ok (Some item), h')
        else find_rewrite rest pathname h'
  end.

(** The part of the handler that serves a virtual page. *)
Definition serve (st : state) (req_url req_originalUrl fileName : string)
  : result outcome :=
  loadResult <- pluginContainer_load fileName ;;
  if load_falsy loadResult then Throw (Error ("Failed to load url " ++ fileName))
  else
    let code := default (option_map load_code loadResult) EmptyString in
    transformed <- transform st code fileName ;;
    html <- transformIndexHtml req_url (default transformed code) req_originalUrl ;;
    Ok (Served fileName
          {| content_type := "text/html"; statusCode := 200; body := html |}).

(** The part of the handler after the custom rewrites. *)
Definition virtual_page_routing (st : state) (req_url req_originalUrl pathname : string)
  : result outcome :=
  match fileName_of st pathname with
  | Missing => Ok PassThrough
  | Own fileName =>
      if truthy fileName then serve st req_url req_originalUrl fileName
      else Ok PassThrough
  | Inherited => Unmodelled
  | Foreign => Unmodelled
  end.

(** The handler, for the RegExp objects [h] as the requests before left
    them: what it does with the request, and the objects as it leaves
    them. *)
Definition middleware (st : state) (h : regexps) (req : Request)
  : result outcome * regexps :=
  match method req, accept_header req, originalUrl req, url req with
  | Some m, Some accept, Some original, Some u =>
      if negb (truthy m) || negb (existsb (String.eqb m) ["GET"; "HEAD"])
         || negb (truthy accept) || negb (truthy original) || negb (truthy u)
      then (Ok PassThrough, h)
      else if negb (accepts_html accept) then (Ok PassThrough, h)
      else
        let parsedUrl := url_parse original in
        match url_pathname parsedUrl with
        | None => (Ok PassThrough, h)
        | Some pathname =>
            if negb (truthy pathname) then (Ok PassThrough, h)
            else
              match rewrites options with
              | Some ((_ :: _) as rules) =>
                  match find_rewrite rules pathname h with
                  | (Ok (Some rewrite), h1) =>
                      let (found, re) := string_match pathname (h1 (from rewrite)) in
                      let h2 := store_regexp (from rewrite) re h1 in
                      match found with
                      | Some match_ =>
                          (rewriteTarget <-
                             evaluateRewriteRule parsedUrl match_ (to rewrite) ;;
                           Ok (Rewritten rewriteTarget), h2)
                      | None => (virtual_page_routing st u original pathname, h2)
                      end
                  | (Ok None, h1) => (virtual_page_routing st u original pathname, h1)
                  | (Throw e, h1) => (Throw e, h1)
                  | (Unmodelled, h1) => (Unmodelled, h1)
                  end
              | _ => (virtual_page_routing st u original pathname, h)
              end
        end
  | _, _, _, _ => (Ok PassThrough, h)
  end.

End Plugin.

Arguments name {host}.
Arguments filename {host}.
Arguments entry {host}.
Arguments template {host}.
Arguments data {host}.

(** ** The shape of the composite pattern *)

Module CompositePattern.
Import JsString.

(** [(?:\.html?)?] *)
Definition html_suffix : regex :=
  Repeat Opt true
    (Group None
       (seq_of [Char "."; Char "h"; Char "t"; Char "m"; Repeat Opt true (Char "l")])).

(** [(\?|#|$)], the second capture *)
Definition terminator : regex :=
  Group (Some 2) (alt_list [seq_of [Char "?"]; seq_of [Char "#"]; seq_of [AssertEnd]]).

(** What follows the first capture: [(?:\.html?)?(\?|#|$).*] *)
Definition after_name : regex :=
  seq_of [html_suffix; terminator; Repeat Star true Dot].

(** What follows the literal prefix in the composite pattern. *)
Definition route_tail (names : list string) : list regex :=
  [ Group (Some 1) (alt_list (map literal names));
    html_suffix; terminator; Repeat Star true Dot ].

(** The pattern for names that are literal texts. *)
Definition composite (prefix : string) (names : list string) : regex :=
  seq_of (lits prefix ++ route_tail names).

(** A text without pattern syntax. *)
Definition literal_text (w : string) : Prop := all_chars pattern_char w = true.

(** Characters of a page name that the pattern and the path leave alone:
    no pattern syntax, no "#", no "/". *)
Definition name_char (c : ascii) : bool :=
  pattern_char c && negb (c =? "#")%char && negb (c =? "/")%char.

(** A name made of such characters. *)
Definition name_text (w : string) : Prop := all_chars name_char w = true.

(** What follows the optional suffix: [(\?|#|$).*] *)
Definition after_suffix : regex :=
  seq_of [terminator; Repeat Star true Dot].

(** The iterations of a greedy [.*], by the number of code units left. *)
Fixpoint star_dot (total : nat) (k : cont) (fuel : nat) (s : string)
         (caps : captures) : option (string * captures) :=
  match fuel with
  | 0 => k s caps
  | S fuel' =>
      orelse
        (run total Dot s (reset_captures [] caps)
           (fun s' caps' =>
              if (String.length s' <? String.length s)%nat
              then star_dot total k fuel' s' caps'
              else None))
        (k s caps)
  end.

(** The pattern of the [accept] test. *)
Definition html_accept : regex :=
  seq_of [ Repeat Star true Dot;
           Group (Some 1)
             (Alt (literal "text/html") (literal "application/xhtml+xml"));
           Repeat Star true Dot ].

End CompositePattern.

(** ** Notions used in the statements *)

Section Notions.

Context `{host : Host}.
Import JsString JsObject CompositePattern.

(** The conditions under which the loop body calls [throwError]. *)
Definition invalid_page (p : Page) : Prop :=
  startsWith (entryPath p) "/" = true
  \/ includes (name p) "/" = true
  \/ exists e, entry p = Some e /\ truthy e = true /\ startsWith e "/" = false.

(** What the loop keeps true of the name map under construction. *)
Definition names_ok (t : tables) : Prop :=
  proto (tempInputMap t) = None
  /\ forall k v, own_get (own (tempInputMap t)) k = Some v -> truthy v = true.

(** Every page the table serves has its template, when set, in the set. *)
Definition templates_ok (t : tables) : Prop :=
  forall id page tpl,
    get (tempVirtualPageMap t) id = Own page ->
    template page = Some tpl -> truthy tpl = true ->
    set_has (tempTplSet t) tpl = true.

(** The first page of a list that carries a given name. *)
Definition first_named (n : string) (ps : list Page) : option Page :=
  find (fun p => (name p =? n)%string) ps.

(** The literal text in front of the alternation. *)
Definition route_prefix (config_base : option string) : string :=
  normalizePath ("/" ++ interpolate config_base ++ "/").

(** [pathname] is routed to the served path [f]. *)
Definition resolves_to (st : state) (pathname f : string) : Prop :=
  fileName_of st pathname = Own f
  /\ forall u original,
       virtual_page_routing st u original pathname = serve st u original f.

(** [pathname] is left to the next handler. *)
Definition passes_through (st : state) (pathname : string) : Prop :=
  fileName_of st pathname = Missing
  /\ forall u original,
       virtual_page_routing st u original pathname = Ok PassThrough.

(** Every served path of the name map leads to a page in the page map,
    and that page is served at this path. *)
Definition table_consistent (st : state) : Prop :=
  forall n f,
    own_get (own (inputMap st)) n = Some f ->
    exists page, get (virtualPageMap st) f = Own page /\ entryPath page = f.

(** The page that [scanPages] makes of the directory [n] of [entryDir]. *)
Definition discovered (so : ScanOptions) (entryDir n : string) : Page :=
  {| name := n;
     filename := option_map (fun f => f n) (scan_filename so);
     entry := if truthy_opt (entryFile so)
              then Some (path_join ["/"; path_join [entryDir; n];
                                    default (entryFile so) EmptyString])
              else None;
     template := None;
     data := None |}.

(** The listing of a directory and the directory test, where [fs]
    answers. *)
Definition listing (dir : string) : list string :=
  match fs_readdirSync dir with
  | Ok names => names
  | _ => []
  end.

Definition is_dir (path : string) : bool :=
  match fs_isDirectory path with
  | Ok b => b
  | _ => false
  end.

(** The tables under construction are in step. *)
Definition tables_in_step (t : tables) : Prop :=
  own_get (own (tempVirtualPageMap t)) "__proto__" = None
  /\ forall n f,
       own_get (own (tempInputMap t)) n = Some f ->
       exists page, get (tempVirtualPageMap t) f = Own page /\ entryPath page = f.

(** The template set under construction: no member twice, the default
    template first, every member the default or the template of a page. *)
Definition templates_from (options : MpaOptions) (all : list Page) (l : list string) : Prop :=
  NoDup l
  /\ hd_error l = Some (default_template options)
  /\ forall x, In x l ->
       x = default_template options
       \/ exists p, In p all /\ template p = Some x /\ truthy x = true.

(** A request the handler goes on with: GET or HEAD, an [accept] header
    that the HTML test passes, and both URLs set. *)
Definition eligible (req : Request) : Prop :=
  exists m accept original u,
    method req = Some m /\ (m = "GET" \/ m = "HEAD")
    /\ accept_header req = Some accept /\ accepts_html accept = true
    /\ originalUrl req = Some original /\ truthy original = true
    /\ url req = Some u /\ truthy u = true.

End Notions.

(** ** A concrete host, for running the model

    POSIX [path], a renderer for templates without EJS tags, a directory
    tree with two page directories and a file, literal rewrite targets. *)

Module Demo.
Import JsString.

Fixpoint split_slash (s : string) (cur : string) : list string :=
  match s with
  | EmptyString => [cur]
  | String "/" s' => cur :: split_slash s' EmptyString
  | String c s' => split_slash s' (cur ++ String c EmptyString)
  end.

(** The segments kept by [path.posix.normalize], last first. *)
Fixpoint normalize_segments (absolute : bool) (segs : list string)
         (kept : list string) : list string :=
  match segs with
  | [] => kept
  | seg :: rest =>
      if (seg =? EmptyString)%string || (seg =? ".")%string
      then normalize_segments absolute rest kept
      else if (seg =? "..")%string then
        match kept with
        | top :: kept' =>
            if (top =? "..")%string
            then normalize_segments absolute rest (seg :: kept)
            else normalize_segments absolute rest kept'
        | [] =>
            if absolute then normalize_segments absolute rest kept
            else normalize_segments absolute rest [seg]
        end
      else normalize_segments absolute rest (seg :: kept)
  end.

(** [path.posix.normalize] *)
Definition posix_normalize (p : string) : string :=
  match p with
  | EmptyString => "."
  | _ =>
      let absolute := startsWith p "/" in
      let trailing := endsWith p "/" in
      let joined :=
        join "/" (rev (normalize_segments absolute (split_slash p EmptyString) [])) in
      match joined with
      | EmptyString => if absolute then "/" else if trailing then "./" else "."
      | _ =>
          (if absolute then "/" else EmptyString) ++ joined
            ++ (if trailing then "/" else EmptyString)
      end
  end.

(** [path.posix.relative] for a file below [root]. *)
Definition relative_below (root file : string) : string :=
  if startsWith file (root ++ "/")
  then drop (String.length root + 1) file
  else file.

(** The part of a URL before the query and the fragment. *)
Fixpoint pathname_of (u : string) : string :=
  match u with
  | EmptyString => EmptyString
  | String "?" _ => EmptyString
  | String "#" _ => EmptyString
  | String c u' => String c (pathname_of u')
  end.

Definition readdir (dir : string) : result (list string) :=
  if (dir =? "src/pages")%string then Ok ["home"; "constructor"; "readme.md"]
  else Throw (HostError "ENOENT").

Definition is_directory (path : string) : result bool :=
  if (path =? "src/pages/home")%string || (path =? "src/pages/constructor")%string
  then Ok true
  else if (path =? "src/pages/readme.md")%string then Ok false
  else Throw (HostError "ENOENT").

#[export] Instance host : Host := {
  value := string;
  normalizePath := posix_normalize;
  ejs_render := fun tpl _ _ _ => Ok tpl;
  pluginName := "vite-plugin-virtual-mpa";
  color_red := fun s => s;
  path_relative := relative_below;
  path_join := fun parts => posix_normalize (join "/" parts);
  fs_readdirSync := readdir;
  fs_isDirectory := is_directory;
  fs_readFileSync := fun _ => Ok "<html><body></body></html>";
  Url := string;
  url_parse := fun u => u;
  url_pathname := fun u => Some (pathname_of u);
  RewriteTo := string;
  evaluateRewriteRule := fun _ _ target => Ok target;
  pluginContainer_load := fun _ => Ok (Some (LoadString "<html><body></body></html>"));
  transformIndexHtml := fun _ html _ => Ok html
}.

Definition page (n : string) : Page :=
  {| name := n; filename := None; entry := None; template := None; data := None |}.

Definition options_of (ps : list Page) : MpaOptions :=
  {| opt_template := None; opt_pages := Some ps; rewrites := None;
     scanOptions := None |}.

(** Scan options for the pages below [src/pages]. *)
Definition scan_options : ScanOptions :=
  {| scanDirs := ["src/pages"]; entryFile := Some "main.ts";
     scan_filename := None |}.

(** Options that discover the pages below [src/pages]. *)
Definition scanning_options : MpaOptions :=
  {| opt_template := None;
     opt_pages := None;
     rewrites := None;
     scanOptions := Some {| scanDirs := ["src/pages"];
                            entryFile := Some "main.ts";
                            scan_filename := None |} |}.

(** An explicit page that shares its name with a discovered one. *)
Definition start_page : Page :=
  {| name := "home"; filename := Some "start.html"; entry := None;
     template := None; data := None |}.

(** Another one, named like a member of [Object.prototype]. *)
Definition constructor_page : Page :=
  {| name := "constructor"; filename := Some "ctor.html"; entry := None;
     template := None; data := None |}.

(** The page discovered for the directory [n] of [src/pages]. *)
Definition discovered_page (n : string) : Page :=
  {| name := n; filename := None;
     entry := Some ("/src/pages/" ++ n ++ "/main.ts")%string;
     template := None; data := None |}.

(** A page with an entry and render data. *)
Definition main_page : Page :=
  {| name := "main"; filename := None; entry := Some "/src/main.ts";
     template := None; data := Some [("title", "Main"); ("mode", "page")] |}.

Definition resolved : ResolvedConfig :=
  {| root := "/proj"; base := "/"; env := [("mode", "development")] |}.

(** The closure variables once [config] and [configResolved] have run
    for [main_page]. *)
Definition served_state : state :=
  configResolved resolved
    (snd (config (options_of [main_page]) (Some "/") initial_state)).

(** Two pages with templates of their own, one of them not an ".html"
    file, and the closure variables after [configResolved] and
    [configInit]. *)
Definition ejs_pages : list Page :=
  [ {| name := "a"; filename := None; entry := None;
       template := Some "layout.ejs"; data := None |};
    {| name := "b"; filename := None; entry := None;
       template := Some "layout.html"; data := None |} ].

Definition ejs_state : state :=
  snd (configInit (options_of ejs_pages) ejs_pages
         (configResolved resolved initial_state)).

(** A RegExp object for a source text, with the flags given and
    [lastIndex] 0. *)
Definition regexp_of (source : string) (g y : bool) : regexp :=
  {| pattern := match parse source with
                | Parsed r => r
                | _ => Empty
                end;
     global := g; sticky := y; other_flags := false; lastIndex := 0 |}.

(** The RegExp objects of the rules below: those for "/admin", for
    "/ma" and for a slash followed by a capture of any text at the
    references 0, 1 and 2, the one for "/ma" with the sticky flag at 3 and
    with the global flag at 4. *)
Definition rule_regexps : regexps :=
  fun ref =>
    match ref with
    | 0 => regexp_of "/admin" false false
    | 1 => regexp_of "/ma" false false
    | 2 => regexp_of "/(.*)" false false
    | 3 => regexp_of "/ma" false true
    | _ => regexp_of "/ma" true false
    end.

(** A rule with a literal target. *)
Definition rule (ref : nat) (target : string) : Rewrite :=
  {| from := ref; to := target |}.

(** Options with three custom rules, for the page [main_page]. *)
Definition rewriting_options : MpaOptions :=
  {| opt_template := None;
     opt_pages := Some [main_page];
     rewrites := Some [ rule 0 "/admin.html";
                        rule 1 "/landing.html";
                        rule 2 "/catch-all.html" ];
     scanOptions := None |}.

(** Options with one rule, for the page [main_page]. *)
Definition one_rule_options (ref : nat) : MpaOptions :=
  {| opt_template := None;
     opt_pages := Some [main_page];
     rewrites := Some [ rule ref "/landing.html" ];
     scanOptions := None |}.

Definition configured_state : state :=
  snd (config rewriting_options (Some "/") initial_state).

Definition routed_state : state := configResolved resolved configured_state.

(** The closure variables for a page whose name, in the pattern, stands
    for any text. *)
Definition any_name_state : state :=
  snd (config (options_of [page ".*"]) (Some "/") initial_state).

Definition main_request : Request :=
  {| method := Some "GET"; accept_header := Some "text/html";
     originalUrl := Some "/main?x=1"; url := Some "/main?x=1" |}.

End Demo.

#[global] Existing Instance Demo.host.

(** ** The claims that fail, as the specification words them *)

Import JsString JsObject CompositePattern.
Open Scope string_scope.

(** The claim as the specification words it, read on what the pattern
    matches: anchored at the start of the path, and matching a page name
    only as the literal text of a registered name. *)
Definition pattern_as_specified (host : Host) : Prop :=
  forall (options : MpaOptions) (config_base : option string) (st st' : state)
         (r : ConfigResult) (re : RegExpObject) (pathname : string)
         (found : match_result),
    config options config_base st = (Ok r, st') ->
    rewriteReg st' = Some re ->
    exec (compiled re) pathname = Some found ->
    index found = 0
    /\ forall key, group 1 found = Some key -> In key (keys (inputMap st')).

(** The claim as the specification words it: every registered name
    resolves, bare, with ".html" and with a query. *)
Definition round_trip_as_specified (host : Host) : Prop :=
  forall (options : MpaOptions) (config_base : option string) (st st' : state)
         (r : ConfigResult) (p f : string),
    config options config_base st = (Ok r, st') ->
    own_get (own (inputMap st')) p = Some f ->
    resolves_to st' (route_prefix config_base ++ p) f
    /\ resolves_to st' (route_prefix config_base ++ p ++ ".html") f
    /\ resolves_to st' (route_prefix config_base ++ p ++ "?x=1") f.

(** The claim as the specification words it: a change to any member of
    the template set makes the watcher send the full-reload message. *)
Definition template_change_as_specified (host : Host) : Prop :=
  forall (st : state) (rc : ResolvedConfig) (file : string),
    resolvedConfig st = Some rc ->
    set_has (tplSet st) (path_relative (root rc) file) = true ->
    on_change st file = Ok [FullReload "*"].


(** * Properties *)

Import JsString JsObject.
Open Scope string_scope.

(** ** Proof steps used throughout *)

(** In a run of the loop that ends well, the head page passed the three
    checks. *)
Ltac passed_checks q H :=
  destruct (startsWith (entryPath q) "/"); [discriminate H|];
  destruct (includes (name q) "/"); [discriminate H|];
  destruct (truthy_opt (entry q)
            && negb (startsWith (default (entry q) EmptyString) "/"));
    [discriminate H|].

(** From a call of [configInit] that ends well: the tables [t] that the
    loop built and that were published. *)
Ltac published H t Hloop :=
  unfold configInit in H;
  destruct (scanPages (scanOptions _)) as [?scanned| |]; cbn [bind] in H;
    try discriminate H;
  destruct (configInit_loop _ _) as [t| |] eqn:Hloop; try discriminate H;
  injection H as <-.

(** ** Strings *)

Module StringFacts.
Import JsString.

Lemma all_chars_append (f : ascii -> bool) (a b : string) :
  all_chars f (a ++ b) = all_chars f a && all_chars f b.
Proof.
  induction a as [|c a IH]; simpl; [reflexivity|].
  now rewrite IH, andb_assoc.
Qed.

Lemma append_nil_r (s : string) : s ++ EmptyString = s.
Proof. induction s as [|c s IH]; simpl; [reflexivity | now rewrite IH]. Qed.

Lemma append_assoc (a b c : string) : (a ++ b) ++ c = a ++ (b ++ c).
Proof. induction a as [|x a IH]; simpl; [reflexivity | now rewrite IH]. Qed.

Lemma length_append (a b : string) :
  String.length (a ++ b) = String.length a + String.length b.
Proof. induction a as [|x a IH]; simpl; [reflexivity | now rewrite IH]. Qed.

Lemma prefix_nil (s : string) : String.prefix EmptyString s = true.
Proof. destruct s; reflexivity. Qed.

Lemma prefix_cons (c d : ascii) (w s : string) :
  String.prefix (String c w) (String d s) = ((c =? d)%char && String.prefix w s).
Proof.
  simpl. destruct (ascii_dec c d) as [->|Hne].
  - now rewrite Ascii.eqb_refl.
  - apply Ascii.eqb_neq in Hne. now rewrite Hne.
Qed.

Lemma prefix_append (w s : string) : String.prefix w (w ++ s) = true.
Proof.
  induction w as [|c w IH]; [apply prefix_nil|].
  change (String c w ++ s) with (String c (w ++ s)).
  now rewrite prefix_cons, Ascii.eqb_refl, IH.
Qed.

Lemma prefix_split (w s : string) :
  String.prefix w s = true -> s = w ++ drop (String.length w) s.
Proof.
  revert s. induction w as [|c w IH]; intros s H; [reflexivity|].
  destruct s as [|d s]; [discriminate|].
  rewrite prefix_cons in H. apply andb_prop in H as [Hc Hw].
  apply Ascii.eqb_eq in Hc. subst d. simpl. now rewrite <- IH.
Qed.

Lemma drop_append (w s : string) : drop (String.length w) (w ++ s) = s.
Proof. induction w as [|c w IH]; simpl; [now destruct s | exact IH]. Qed.

Lemma drop_0 (s : string) : drop 0 s = s.
Proof. now destruct s. Qed.

Lemma drop_nil (n : nat) : drop n EmptyString = EmptyString.
Proof. now destruct n. Qed.

Lemma drop_drop (a b : nat) (s : string) : drop a (drop b s) = drop (b + a) s.
Proof.
  revert s. induction b as [|b IH]; intros s.
  - now rewrite drop_0.
  - destruct s as [|c s]; simpl; [apply drop_nil | apply IH].
Qed.

Lemma drop_append_ge (n : nat) (w s : string) :
  drop (String.length w + n) (w ++ s) = drop n s.
Proof. induction w as [|c w IH]; simpl; [reflexivity | exact IH]. Qed.

Lemma take_append (w s : string) : take (String.length w) (w ++ s) = w.
Proof.
  unfold take. induction w as [|c w IH]; simpl.
  - now destruct s.
  - now rewrite IH.
Qed.

Lemma sub_length_append (w s : string) :
  String.length (w ++ s) - String.length s = String.length w.
Proof. rewrite length_append. lia. Qed.

(** No occurrence of [w] in [s] means none at any offset. *)
Lemma includes_false_drop (s w : string) (i : nat) :
  includes s w = false -> String.prefix w (drop i s) = false.
Proof.
  revert s. induction i as [|i IH]; intros s H.
  - rewrite drop_0. destruct s; simpl in H; now apply orb_false_elim in H.
  - destruct s as [|c s].
    + simpl. simpl in H. now apply orb_false_elim in H.
    + simpl. apply IH. change (includes (String c s) w)
        with (String.prefix w (String c s) || includes s w) in H.
      now apply orb_false_elim in H.
Qed.

Lemma includes_prefix_drop (s w : string) (i : nat) :
  String.prefix w (drop i s) = true -> includes s w = true.
Proof.
  intros H. destruct (includes s w) eqn:E; [reflexivity|].
  now rewrite (includes_false_drop _ _ i E) in H.
Qed.

Lemma substring_full (s : string) : substring 0 (String.length s) s = s.
Proof. induction s as [|c s IH]; simpl; [reflexivity | now rewrite IH]. Qed.

Lemma substring_split (k : nat) (s : string) :
  k <= String.length s ->
  s = substring 0 k s ++ substring k (String.length s - k) s.
Proof.
  revert s. induction k as [|k IH]; intros s Hk.
  - rewrite Nat.sub_0_r, substring_full. now destruct s.
  - destruct s as [|c s]; simpl in *; [lia|].
    rewrite <- IH by lia. reflexivity.
Qed.

Lemma endsWith_split (s w : string) :
  endsWith s w = true -> exists q, s = q ++ w.
Proof.
  unfold endsWith. intros H.
  destruct (String.length w <=? String.length s)%nat eqn:E; [|discriminate].
  apply Nat.leb_le in E. apply String.eqb_eq in H.
  exists (substring 0 (String.length s - String.length w) s).
  pose proof (substring_split (String.length s - String.length w) s) as Hs.
  replace (String.length s - (String.length s - String.length w))
    with (String.length w) in Hs by lia.
  rewrite H in Hs. apply Hs. lia.
Qed.

(** A text that does not include the one-character text [c] has no such
    character. *)
Lemma includes_single (s : string) (c : ascii) :
  includes s (String c EmptyString) = false ->
  all_chars (fun x => negb (x =? c)%char) s = true.
Proof.
  induction s as [|d s IH]; intros H; [reflexivity|].
  change (includes (String d s) (String c EmptyString))
    with (String.prefix (String c EmptyString) (String d s)
          || includes s (String c EmptyString)) in H.
  apply orb_false_elim in H as [Hd Hs].
  rewrite prefix_cons, prefix_nil, andb_true_r in Hd.
  simpl. rewrite Ascii.eqb_sym, Hd. now apply IH.
Qed.

Lemma truthy_append_r (a b : string) : truthy b = true -> truthy (a ++ b) = true.
Proof. destruct a, b; auto. Qed.

End StringFacts.

(** ** The pattern engine *)

Module RegExpFacts.
Import JsString StringFacts.

(** A literal text in front of a sequence consumes exactly itself. *)
Lemma run_lits (total : nat) (w : string) (rest : list regex) :
  forall s caps k,
    run total (seq_of (lits w ++ rest)) s caps k =
    if String.prefix w s
    then run total (seq_of rest) (drop (String.length w) s) caps k
    else None.
Proof.
  induction w as [|c w IH]; intros s caps k.
  - rewrite prefix_nil, drop_0. reflexivity.
  - destruct s as [|d s]; [reflexivity|].
    rewrite prefix_cons. cbn [lits app seq_of run String.length drop].
    destruct (c =? d)%char; [apply IH | reflexivity].
Qed.

Lemma run_lits_only (total : nat) (w : string) :
  forall s caps k,
    run total (seq_of (lits w)) s caps k =
    if String.prefix w s then k (drop (String.length w) s) caps else None.
Proof.
  intros s caps k. rewrite <- (app_nil_r (lits w)). apply run_lits.
Qed.

Lemma consumed_append (w s : string) : consumed (w ++ s) s = w.
Proof. unfold consumed. rewrite sub_length_append. apply take_append. Qed.

(** *** Leftmost search *)

Lemma exec_from_found (total : nat) (r : regex) (s rest : string) (caps : captures) :
  run total r s [] accept = Some (rest, caps) ->
  exec_from total r s
  = Some (MatchResult (total - String.length s) (consumed s rest) caps).
Proof. intros H. destruct s; simpl; rewrite H; reflexivity. Qed.

Lemma exec_from_skip (total : nat) (r : regex) (c : ascii) (s : string) :
  run total r (String c s) [] accept = None ->
  exec_from total r (String c s) = exec_from total r s.
Proof. intros H. simpl. rewrite H. reflexivity. Qed.

Lemma exec_from_none (total : nat) (r : regex) (s : string) :
  (forall i, run total r (drop i s) [] accept = None) ->
  exec_from total r s = None.
Proof.
  induction s as [|c s IH]; intros H.
  - pose proof (H 0) as H0. simpl in *. now rewrite H0.
  - rewrite exec_from_skip by exact (H 0).
    apply IH. intros i. exact (H (S i)).
Qed.

(** Skipping the positions where the pattern cannot start. *)
Lemma exec_from_later (total : nat) (r : regex) (before rest : string) :
  (forall i, (i < String.length before)%nat ->
             run total r (drop i (before ++ rest)) [] accept = None) ->
  exec_from total r (before ++ rest) = exec_from total r rest.
Proof.
  induction before as [|c b IH]; intros H; [reflexivity|].
  change (String c b ++ rest) with (String c (b ++ rest)).
  rewrite exec_from_skip.
  - apply IH. intros i Hi. apply (H (S i)). simpl. lia.
  - apply (H 0). simpl. lia.
Qed.

(** *** Parsing literal text *)

Lemma parse_loop_char (c : ascii) (p : string) (g : nat) (cur : frame)
      (stack : list frame) :
  pattern_char c = true ->
  parse_loop (String c p) g cur stack
  = parse_loop p g (push_atom (Char c) cur) stack.
Proof.
  intros H.
  destruct c as [[|] [|] [|] [|] [|] [|] [|] [|]];
    try reflexivity; discriminate H.
Qed.

Lemma parse_loop_lits (w : string) :
  forall rest g cur stack,
    all_chars pattern_char w = true ->
    parse_loop (w ++ rest) g cur stack
    = parse_loop rest g (push_lits w cur) stack.
Proof.
  induction w as [|c w IH]; intros rest g cur stack H; [reflexivity|].
  simpl in H. apply andb_prop in H as [Hc Hw].
  change (String c w ++ rest) with (String c (w ++ rest)).
  rewrite parse_loop_char by exact Hc. now apply IH.
Qed.

Lemma push_lits_capture w cur : f_capture (push_lits w cur) = f_capture cur.
Proof. revert cur. induction w; intros; simpl; [|rewrite IHw]; reflexivity. Qed.

Lemma push_lits_alts w cur : f_alts (push_lits w cur) = f_alts cur.
Proof. revert cur. induction w; intros; simpl; [|rewrite IHw]; reflexivity. Qed.

Lemma push_lits_terms w cur :
  f_terms (push_lits w cur) = (rev (lits w) ++ f_terms cur)%list.
Proof.
  revert cur. induction w as [|c w IH]; intros cur; [reflexivity|].
  simpl. rewrite IH. simpl. now rewrite <- app_assoc.
Qed.

Lemma exec_from_some (total : nat) (r : regex) (s : string) (i : nat) :
  run total r (drop i s) [] accept <> None -> exec_from total r s <> None.
Proof.
  revert i. induction s as [|c s IH]; intros i H.
  - rewrite drop_nil in H. cbn [exec_from].
    destruct (run total r EmptyString [] accept) as [[rest caps]|];
      [discriminate | contradiction].
  - cbn [exec_from].
    destruct (run total r (String c s) [] accept) as [[rest caps]|] eqn:E;
      [discriminate|].
    destruct i as [|i]; [rewrite drop_0, E in H; contradiction|].
    now apply (IH i).
Qed.

Lemma exec_from_inv (total : nat) (r : regex) (s : string) (m : match_result) :
  exec_from total r s = Some m ->
  exists i rest,
    run total r (drop i s) [] accept = Some (rest, groups m).
Proof.
  induction s as [|c s IH]; cbn [exec_from]; intros H.
  - destruct (run total r EmptyString [] accept) as [[rest caps]|] eqn:E;
      [|discriminate H].
    injection H as <-. exists 0, rest. exact E.
  - destruct (run total r (String c s) [] accept) as [[rest caps]|] eqn:E.
    + injection H as <-. exists 0, rest. exact E.
    + destruct (IH H) as (i & rest & Hi). now exists (S i), rest.
Qed.

End RegExpFacts.

(** ** Plain objects *)

Module JsObjectFacts.
Import JsObject.

Lemma own_get_define {V} (l : list (string * V)) (k k' : string) (v : V) :
  own_get (define l k v) k' = if (k =? k')%string then Some v else own_get l k'.
Proof.
  induction l as [|[k0 v0] l IH]; simpl.
  - reflexivity.
  - destruct (String.eqb_spec k0 k) as [->|Hne]; simpl.
    + now destruct (k =? k')%string.
    + rewrite IH. destruct (String.eqb_spec k0 k') as [->|Hne'].
      * apply not_eq_sym, String.eqb_neq in Hne. now rewrite Hne.
      * reflexivity.
Qed.

(** Reading a string-valued dictionary whose prototype was never
    replaced. *)
Lemma get_plain (o : obj string) (k : string) :
  proto o = None ->
  get o k = match own_get (own o) k with
            | Some v => Own v
            | None => if is_prototype_member k then Inherited else Missing
            end.
Proof. intros H. unfold get. now rewrite H. Qed.

Lemma set_string_proto (o : obj string) (k v : string) :
  proto (set o k v) = proto o.
Proof. unfold set. now destruct (k =? "__proto__")%string. Qed.

Lemma own_set_string (o : obj string) (k v : string) :
  own (set o k v)
  = if (k =? "__proto__")%string then own o else define (own o) k v.
Proof. unfold set. now destruct (k =? "__proto__")%string. Qed.

Lemma define_keys {V} (l : list (string * V)) (k : string) (v : V) :
  map fst (define l k v)
  = if existsb (String.eqb k) (map fst l) then map fst l
    else (map fst l ++ [k])%list.
Proof.
  induction l as [|[k0 v0] l IH]; simpl; [reflexivity|].
  rewrite (String.eqb_sym k k0).
  destruct (k0 =? k)%string; simpl; [reflexivity|].
  rewrite IH. now destruct (existsb (String.eqb k) (map fst l)).
Qed.

Lemma own_get_In {V} (l : list (string * V)) (k : string) (v : V) :
  own_get l k = Some v -> In k (map fst l).
Proof.
  induction l as [|[k0 v0] l IH]; simpl; [discriminate|].
  destruct (String.eqb_spec k0 k) as [->|Hne]; intros H; [now left|].
  right. now apply IH.
Qed.

End JsObjectFacts.

(** ** The page table *)

Section TableFacts.

Context `{host : Host} (options : MpaOptions).
Import JsString JsObject StringFacts JsObjectFacts.

Lemma entryPath_truthy (p : Page) : truthy (entryPath p) = true.
Proof.
  unfold entryPath. destruct (filename p) as [f|].
  - destruct (truthy f) eqn:E; [exact E | now apply truthy_append_r].
  - now apply truthy_append_r.
Qed.

Lemma configInit_loop_invalid (ps : list Page) :
  forall (t : tables) (p : Page),
    In p ps -> invalid_page p ->
    exists message, configInit_loop ps t = throwError message.
Proof.
  induction ps as [|q ps IH]; intros t p Hin Hbad; [contradiction|].
  cbn [configInit_loop].
  destruct (startsWith (entryPath q) "/") eqn:E1; [eauto|].
  destruct (includes (name q) "/") eqn:E2; [eauto|].
  destruct (truthy_opt (entry q)
            && negb (startsWith (default (entry q) EmptyString) "/")) eqn:E3;
    [eauto|].
  destruct Hin as [->|Hin].
  - exfalso. destruct Hbad as [H|[H|(e & He & Ht & Hs)]]; try congruence.
    rewrite He in E3. simpl in E3. rewrite Ht, Hs in E3. discriminate.
  - destruct (truthy_property (get (tempInputMap t) (name q))); eapply IH; eauto.
Qed.

Lemma fresh_tables_ok : names_ok (fresh_tables options).
Proof. split; [reflexivity | discriminate]. Qed.

Lemma register_ok (p : Page) (t : tables) : names_ok t -> names_ok (register p t).
Proof.
  intros [Hp Hv]. split; cbn [register tempInputMap].
  - now rewrite set_string_proto.
  - intros k v. rewrite own_set_string.
    destruct (name p =? "__proto__")%string; [apply Hv|].
    rewrite own_get_define.
    destruct (name p =? k)%string; [|apply Hv].
    intros [= <-]. apply entryPath_truthy.
Qed.

Lemma configInit_loop_ok (ps : list Page) :
  forall t t', configInit_loop ps t = Ok t' -> names_ok t -> names_ok t'.
Proof.
  induction ps as [|q ps IH]; intros t t' H Hok; cbn [configInit_loop] in H.
  - now injection H as <-.
  - passed_checks q H.
    destruct (truthy_property _); eauto using register_ok.
Qed.

(** First registration wins: after the loop, a name that is not a member
    of [Object.prototype] maps to the served path of the first page that
    carries it, unless it was mapped before the loop. *)
Lemma configInit_loop_first_wins (ps : list Page) :
  forall t t' n,
    configInit_loop ps t = Ok t' -> names_ok t ->
    is_prototype_member n = false ->
    get (tempInputMap t') n
    = match own_get (own (tempInputMap t)) n with
      | Some v => Own v
      | None =>
          match first_named n ps with
          | Some p => Own (entryPath p)
          | None => Missing
          end
      end.
Proof.
  induction ps as [|q ps IH]; intros t t' n H Hok Hn; cbn [configInit_loop] in H.
  - injection H as <-. rewrite get_plain by apply Hok. rewrite Hn.
    now destruct (own_get _ n).
  - passed_checks q H.
    cbn [first_named find]. fold (first_named n ps).
    destruct (truthy_property (get (tempInputMap t) (name q))) eqn:E.
    + rewrite (IH _ _ _ H Hok Hn).
      destruct (own_get (own (tempInputMap t)) n) eqn:En; [reflexivity|].
      destruct (String.eqb_spec (name q) n) as [Heq|Hne]; [|reflexivity].
      exfalso. rewrite get_plain in E by apply Hok.
      rewrite Heq, En, Hn in E. discriminate.
    + rewrite (IH _ _ _ H (register_ok q t Hok) Hn).
      cbn [register tempInputMap]. rewrite own_set_string.
      rewrite get_plain in E by apply Hok.
      destruct (String.eqb_spec (name q) "__proto__") as [Hp|Hp].
      * rewrite Hp in E.
        destruct (own_get (own (tempInputMap t)) "__proto__") as [v|] eqn:En.
        -- destruct Hok as [_ Hv]. cbn in E. rewrite ?En in E. cbn in E.
           rewrite (Hv _ _ En) in E. discriminate.
        -- discriminate E.
      * rewrite own_get_define.
        destruct (String.eqb_spec (name q) n) as [Heq|Hne]; [|reflexivity].
        rewrite <- Heq.
        destruct (own_get (own (tempInputMap t)) (name q)) as [v|] eqn:En;
          [|reflexivity].
        destruct Hok as [_ Hv]. cbn in E.
        rewrite (Hv _ _ En) in E. discriminate.
Qed.

End TableFacts.

(** ** Table construction: validation and first registration *)


Lemma find_app_found {A} (f : A -> bool) (l1 l2 : list A) (x : A) :
  find f l1 = Some x -> find f (l1 ++ l2)%list = Some x.
Proof.
  induction l1 as [|a l1 IH]; simpl; [discriminate|].
  destruct (f a); [trivial | exact IH].
Qed.

(** C7. Table construction throws the plugin's error for any page, explicit
    or discovered, whose served path (explicit or derived) begins with "/",
    whose name contains "/", or whose entry is set and does not begin with
    "/".  The throw happens before the three closing assignments, so the
    closure variables keep the previous table, and the [config] hook fails
    in the same way. *)
Theorem configInit_rejects_invalid_page :
  forall (host : Host) (options : MpaOptions) (ps scanned : list Page)
         (st : state) (p : Page),
    scanPages (scanOptions options) = Ok scanned ->
    In p (ps ++ scanned)%list ->
    invalid_page p ->
    exists message,
      configInit options ps st = (throwError message, st)
      /\ (ps = pages options ->
          forall config_base, config options config_base st = (throwError message, st)).
Proof.
  intros host options ps scanned st p Hscan Hin Hbad.
  destruct (configInit_loop_invalid (ps ++ scanned)%list
              (fresh_tables options) p Hin Hbad) as [message Hloop].
  exists message.
  assert (Hinit : configInit options ps st = (throwError message, st)).
  { unfold configInit. rewrite Hscan. cbn [bind]. rewrite Hloop. reflexivity. }
  split; [exact Hinit|].
  intros -> config_base. unfold config. rewrite Hinit. reflexivity.
Qed.

Lemma configInit_rejects_invalid_page_witness :
  let bad := {| name := "x"; filename := Some "/abs.html"; entry := None;
                template := None; data := None |} in
  exists message,
    configInit (Demo.options_of [bad]) [bad] initial_state
    = (throwError message, initial_state)
    /\ (([bad] : list Page) = pages (Demo.options_of [bad]) ->
        forall config_base,
          config (Demo.options_of [bad]) config_base initial_state
          = (throwError message, initial_state)).
Proof.
  intros bad.
  apply (configInit_rejects_invalid_page Demo.host (Demo.options_of [bad])
           [bad] [] initial_state bad).
  - reflexivity.
  - left. reflexivity.
  - left. reflexivity.
Defined.

(** X16. First registration wins.  When [configInit] succeeds, a name that is
    not a member of [Object.prototype] and that an explicit page carries is
    mapped to the served path of the first explicit page carrying it,
    whatever was discovered. *)
Theorem configInit_explicit_page_wins :
  forall (host : Host) (options : MpaOptions) (ps : list Page)
         (st st' : state) (n : string) (e : Page),
    configInit options ps st = (Ok tt, st') ->
    first_named n ps = Some e ->
    is_prototype_member n = false ->
    get (inputMap st') n = Own (entryPath e).
Proof.
  intros host options ps st st' n e H Hfirst Hn.
  published H t Hloop. cbn [publish inputMap].
  rewrite (configInit_loop_first_wins _ _ _ n Hloop (fresh_tables_ok options) Hn).
  cbn [fresh_tables tempInputMap empty own own_get].
  unfold first_named in *. now rewrite (find_app_found _ _ _ _ Hfirst).
Qed.

Lemma configInit_explicit_page_wins_witness :
  get (inputMap (snd (configInit Demo.scanning_options [Demo.start_page]
                        initial_state))) "home"
  = Own "start.html".
Proof.
  apply (configInit_explicit_page_wins Demo.host Demo.scanning_options
           [Demo.start_page] initial_state _ "home" Demo.start_page);
    reflexivity.
Defined.

(** C5. At an explicit page and a discovered page that are both named
    "constructor" the table gets no entry for that name: reading
    [tempInputMap["constructor"]] on the fresh object finds the inherited
    [Object.prototype.constructor], which is truthy, and the loop skips
    both pages as if the name were registered.  The explicit page's served
    path is not registered either. *)
Theorem constructor_page_is_dropped :
  exists st',
    configInit Demo.scanning_options [Demo.constructor_page] initial_state
    = (Ok tt, st')
    /\ scanPages (scanOptions Demo.scanning_options)
       = Ok [ {| name := "home"; filename := None;
                 entry := Some "/src/pages/home/main.ts";
                 template := None; data := None |};
              {| name := "constructor"; filename := None;
                 entry := Some "/src/pages/constructor/main.ts";
                 template := None; data := None |} ]
    /\ get (inputMap st') "constructor" = Inherited
    /\ keys (inputMap st') = ["home"]
    /\ get (virtualPageMap st') "ctor.html" = Missing.
Proof. eexists. repeat split. Qed.

(** ** The renderer *)

Module RenderFacts.
Import StringFacts RegExpFacts.

Lemma bodyInject_source : parse "<\/body>" = Parsed bodyInject.
Proof. reflexivity. Qed.

Lemma bodyInject_lits : bodyInject = seq_of (lits "</body>").
Proof. reflexivity. Qed.

Lemma exec_bodyInject_none (content : string) :
  includes content "</body>" = false -> exec bodyInject content = None.
Proof.
  intros H. unfold exec. apply exec_from_none. intros i.
  rewrite bodyInject_lits, run_lits_only.
  now rewrite (includes_false_drop _ _ i H).
Qed.

(** The leftmost occurrence is the one found. *)
Lemma exec_bodyInject_first (before after : string) :
  (forall i, (i < String.length before)%nat ->
             String.prefix "</body>" (drop i (before ++ "</body>" ++ after)) = false) ->
  exec bodyInject (before ++ "</body>" ++ after)
  = Some (MatchResult (String.length before) "</body>" []).
Proof.
  intros H. unfold exec. rewrite exec_from_later.
  - rewrite (exec_from_found _ _ _ after []).
    + rewrite consumed_append. f_equal. f_equal.
      rewrite !length_append. lia.
    + rewrite bodyInject_lits, run_lits_only, prefix_append, drop_append.
      reflexivity.
  - intros i Hi. rewrite bodyInject_lits, run_lits_only. now rewrite (H i Hi).
Qed.

Lemma get_substitution_cons (ncaps : nat) (m : match_result) (str : string)
      (c : ascii) (t : string) :
  (c =? "$")%char = false ->
  JsReplace.get_substitution ncaps m str (String c t)
  = String c (JsReplace.get_substitution ncaps m str t).
Proof.
  intros H.
  destruct c as [[|] [|] [|] [|] [|] [|] [|] [|]];
    try reflexivity; discriminate H.
Qed.

(** A replacement text without "$" is inserted as it is. *)
Lemma get_substitution_plain (ncaps : nat) (m : match_result) (str t : string) :
  all_chars (fun x => negb (x =? "$")%char) t = true ->
  JsReplace.get_substitution ncaps m str t = t.
Proof.
  induction t as [|c t IH]; intros H; [reflexivity|].
  simpl in H. apply andb_prop in H as [Hc Ht].
  rewrite get_substitution_cons by now apply negb_true_iff.
  now rewrite IH.
Qed.

Lemma injection_plain `{host : Host} (e : string) :
  includes (normalizePath e) "$" = false ->
  all_chars (fun x => negb (x =? "$")%char) (injection e) = true.
Proof.
  intros H. unfold injection, script_tag.
  rewrite !all_chars_append, (includes_single _ _ H). reflexivity.
Qed.

End RenderFacts.

Import StringFacts RegExpFacts RenderFacts JsObjectFacts.

(** C10. For a registered page with an entry, a template that holds no
    "</body>" goes to the EJS pass as it is: [replace] finds no match and
    returns its input, nothing is thrown by the injection step and no
    script tag is added. *)
Theorem transform_without_closing_body :
  forall (host : Host) (st : state) (id : string) (page : Page) (e : string)
         (rc : ResolvedConfig) (fileContent : string),
    get (virtualPageMap st) id = Own page ->
    entry page = Some e ->
    truthy e = true ->
    resolvedConfig st = Some rc ->
    includes fileContent "</body>" = false ->
    inject_entry (entry page) fileContent = fileContent
    /\ transform st fileContent id
       = (out <- ejs_render fileContent (render_scope rc (data page)) id (root rc) ;;
          Ok (Some out)).
Proof.
  intros host st id page e rc fileContent Hpage He Ht Hrc Hno.
  assert (Hinj : inject_entry (entry page) fileContent = fileContent).
  { unfold inject_entry. rewrite He, Ht. unfold JsReplace.replace.
    now rewrite exec_bodyInject_none. }
  split; [exact Hinj|].
  unfold transform. rewrite Hpage. unfold render. now rewrite Hinj, Hrc.
Qed.

(** X17. Entry injection, where the replacement text holds no "$": the script
    tag for the normalized entry and a line feed are put in front of the
    leftmost "</body>", and the text on both sides is kept. *)
Theorem transform_injects_entry :
  forall (host : Host) (st : state) (id : string) (page : Page) (e : string)
         (rc : ResolvedConfig) (before after : string),
    get (virtualPageMap st) id = Own page ->
    entry page = Some e ->
    truthy e = true ->
    resolvedConfig st = Some rc ->
    (forall i, (i < String.length before)%nat ->
               String.prefix "</body>" (drop i (before ++ "</body>" ++ after)) = false) ->
    includes (normalizePath e) "$" = false ->
    inject_entry (entry page) (before ++ "</body>" ++ after)
    = before ++ script_tag (normalizePath e) ++ newline ++ "</body>" ++ after
    /\ transform st (before ++ "</body>" ++ after) id
       = (out <- ejs_render
                   (before ++ script_tag (normalizePath e) ++ newline ++ "</body>" ++ after)
                   (render_scope rc (data page)) id (root rc) ;;
          Ok (Some out)).
Proof.
  intros host st id page e rc before after Hpage He Ht Hrc Hfirst Hplain.
  assert (Hinj : inject_entry (entry page) (before ++ "</body>" ++ after)
                 = before ++ script_tag (normalizePath e) ++ newline
                     ++ "</body>" ++ after).
  { unfold inject_entry. rewrite He, Ht. unfold JsReplace.replace.
    rewrite (exec_bodyInject_first before after Hfirst).
    cbn [index matched].
    rewrite get_substitution_plain by now apply injection_plain.
    rewrite take_append.
    change (String.length "</body>") with (String.length "</body>" + 0)%nat.
    rewrite drop_append_ge, drop_append_ge, drop_0.
    unfold injection. now rewrite !append_assoc. }
  split; [exact Hinj|].
  unfold transform. rewrite Hpage. unfold render. now rewrite Hinj, Hrc.
Qed.

Lemma transform_injects_entry_witness :
  inject_entry (entry Demo.main_page) ("<body><main></main>" ++ "</body>" ++ "</html>")
  = "<body><main></main>" ++ script_tag "/src/main.ts" ++ newline
      ++ "</body>" ++ "</html>"
  /\ transform Demo.served_state ("<body><main></main>" ++ "</body>" ++ "</html>")
       "main.html"
     = (out <- ejs_render
                 ("<body><main></main>" ++ script_tag "/src/main.ts" ++ newline
                    ++ "</body>" ++ "</html>")
                 (render_scope Demo.resolved (data Demo.main_page)) "main.html"
                 (root Demo.resolved) ;;
        Ok (Some out)).
Proof.
  apply (transform_injects_entry Demo.host Demo.served_state "main.html"
           Demo.main_page "/src/main.ts" Demo.resolved
           "<body><main></main>" "</html>");
    try reflexivity.
  intros i Hi.
  do 19 (destruct i as [|i]; [reflexivity|]).
  simpl in Hi. lia.
Defined.

Lemma transform_without_closing_body_witness :
  inject_entry (entry Demo.main_page) "<main></main>" = "<main></main>"
  /\ transform Demo.served_state "<main></main>" "main.html"
     = (out <- ejs_render "<main></main>"
                 (render_scope Demo.resolved (data Demo.main_page)) "main.html"
                 (root Demo.resolved) ;;
        Ok (Some out)).
Proof.
  apply (transform_without_closing_body Demo.host Demo.served_state "main.html"
           Demo.main_page "/src/main.ts" Demo.resolved "<main></main>");
    reflexivity.
Defined.

(** C8. At the entry "/src/$&.ts" the text put in front of "</body>" does
    not reference the entry: [replace] reads "$&" in its replacement text
    as "the matched text", so the script tag points to
    "/src/</body>.ts". *)
Theorem dollar_entry_is_rewritten :
  let page := {| name := "shop"; filename := None; entry := Some "/src/$&.ts";
                 template := None; data := None |} in
  let st := configResolved Demo.resolved
              (snd (config (Demo.options_of [page]) (Some "/") initial_state)) in
  get (virtualPageMap st) "shop.html" = Own page
  /\ normalizePath "/src/$&.ts" = "/src/$&.ts"
  /\ inject_entry (entry page) "<body></body>"
     = "<body>" ++ script_tag "/src/</body>.ts" ++ newline ++ "</body>"
  /\ inject_entry (entry page) "<body></body>"
     <> "<body>" ++ script_tag "/src/$&.ts" ++ newline ++ "</body>"
  /\ transform st "<body></body>" "shop.html"
     = Ok (Some ("<body>" ++ script_tag "/src/</body>.ts" ++ newline ++ "</body>")).
Proof. repeat split. discriminate. Qed.

(** ** When [transform] answers [null] *)

(** X18. [transform] answers [null] exactly when [id] names nothing in
    [virtualPageMap]; for a registered page without entry whose template
    the EJS pass returns as it is, it answers that very text, not
    [null]. *)
Theorem transform_null_iff_unregistered :
  forall (host : Host) (st : state) (fileContent id : string),
    (transform st fileContent id = Ok None <-> get (virtualPageMap st) id = Missing)
    /\ (forall (page : Page) (rc : ResolvedConfig),
          get (virtualPageMap st) id = Own page ->
          truthy_opt (entry page) = false ->
          resolvedConfig st = Some rc ->
          ejs_render fileContent (render_scope rc (data page)) id (root rc)
          = Ok fileContent ->
          transform st fileContent id = Ok (Some fileContent)).
Proof.
  intros host st fileContent id. split.
  - unfold transform, render.
    destruct (get (virtualPageMap st) id) as [page| | |]; split; intros H;
      try reflexivity; try discriminate H.
    + destruct (resolvedConfig st); [|discriminate H].
      destruct (ejs_render _ _ _ _); discriminate H.
    + destruct (resolvedConfig st); [|discriminate H].
      destruct (ejs_render _ _ _ _); discriminate H.
  - intros page rc Hpage He Hrc Hsame.
    unfold transform. rewrite Hpage. unfold render. rewrite Hrc.
    assert (Hinj : inject_entry (entry page) fileContent = fileContent).
    { unfold inject_entry. destruct (entry page) as [e|]; [|reflexivity].
      simpl in He. now rewrite He. }
    rewrite Hinj, Hsame. reflexivity.
Qed.

Lemma transform_null_iff_unregistered_witness :
  transform Demo.served_state "<p>static</p>" "other.html" = Ok None
  /\ transform
       (configResolved Demo.resolved
          (snd (config (Demo.options_of [Demo.page "plain"]) (Some "/")
                  initial_state)))
       "<p>static</p>" "plain.html"
     = Ok (Some "<p>static</p>").
Proof.
  split.
  - apply (proj1 (transform_null_iff_unregistered Demo.host Demo.served_state
                    "<p>static</p>" "other.html")).
    reflexivity.
  - apply (proj2 (transform_null_iff_unregistered Demo.host _
                    "<p>static</p>" "plain.html")
             (Demo.page "plain") Demo.resolved);
      reflexivity.
Defined.

(** ** The render scope *)

Section ScopeFacts.

Context {V : Type}.

Lemma own_get_absent (l : list (string * V)) (k : string) :
  ~ In k (map fst l) -> own_get l k = None.
Proof.
  induction l as [|[k0 v0] l IH]; simpl; intros H; [reflexivity|].
  destruct (String.eqb_spec k0 k) as [->|Hne]; [tauto|]. apply IH. tauto.
Qed.

(** Copying the properties of an object over [acc]: the copied ones win. *)
Lemma own_get_define_all (l : list (string * V)) :
  forall acc k,
    NoDup (map fst l) ->
    own_get (define_all acc l) k
    = match own_get (V := V) l k with
      | Some v => Some v
      | None => own_get acc k
      end.
Proof.
  unfold define_all.
  induction l as [|[k0 v0] l IH]; intros acc k Hnd; [reflexivity|].
  inversion Hnd as [|? ? Hnotin Hnd']; subst.
  cbn [fold_left fst snd own_get]. rewrite IH by exact Hnd'.
  rewrite own_get_define.
  destruct (String.eqb_spec k0 k) as [->|Hne]; [|reflexivity].
  now rewrite (own_get_absent l k Hnotin).
Qed.

End ScopeFacts.

(** C9. For a registered page, the EJS pass is given the object
    [{...resolvedConfig.env, ...page.data}]: a key of [page.data] has the
    value [page.data] gives it, any other key has the value [env] gives
    it, if any.  ([env] and [page.data] are objects: no key occurs twice
    in their lists of properties.) *)
Theorem render_scope_data_wins :
  forall (host : Host) (st : state) (id : string) (page : Page)
         (rc : ResolvedConfig) (fileContent : string),
    get (virtualPageMap st) id = Own page ->
    resolvedConfig st = Some rc ->
    NoDup (map fst (env rc)) ->
    NoDup (map fst (default (data page) [])) ->
    transform st fileContent id
    = (out <- ejs_render (inject_entry (entry page) fileContent)
                (render_scope rc (data page)) id (root rc) ;;
       Ok (Some out))
    /\ forall k,
         own_get (render_scope rc (data page)) k
         = match own_get (default (data page) []) k with
           | Some v => Some v
           | None => own_get (env rc) k
           end.
Proof.
  intros host st id page rc fileContent Hpage Hrc Henv Hdata. split.
  - unfold transform. rewrite Hpage. unfold render. now rewrite Hrc.
  - intros k. unfold render_scope, spread.
    rewrite own_get_define_all by exact Hdata.
    destruct (own_get (default (data page) []) k); [reflexivity|].
    rewrite own_get_define_all by exact Henv.
    now destruct (own_get (env rc) k).
Qed.

Lemma render_scope_data_wins_witness :
  transform Demo.served_state "<p></p>" "main.html"
  = (out <- ejs_render (inject_entry (entry Demo.main_page) "<p></p>")
              (render_scope Demo.resolved (data Demo.main_page)) "main.html"
              (root Demo.resolved) ;;
     Ok (Some out))
  /\ forall k,
       own_get (render_scope Demo.resolved (data Demo.main_page)) k
       = match own_get (default (data Demo.main_page) []) k with
         | Some v => Some v
         | None => own_get (env Demo.resolved) k
         end.
Proof.
  apply (render_scope_data_wins Demo.host Demo.served_state "main.html"
           Demo.main_page Demo.resolved "<p></p>").
  - reflexivity.
  - reflexivity.
  - repeat constructor; simpl; intuition discriminate.
  - repeat constructor; simpl; intuition discriminate.
Defined.

Example render_scope_collision :
  own_get (render_scope Demo.resolved (data Demo.main_page)) "mode" = Some "page"
  /\ map fst (render_scope Demo.resolved (data Demo.main_page)) = ["mode"; "title"].
Proof. split; reflexivity. Qed.

(** ** The template set and the watcher *)

Section TemplateSetFacts.

Context `{host : Host} (options : MpaOptions).

Lemma set_has_add (l : list string) (x y : string) :
  set_has (set_add l x) y = set_has l y || (x =? y)%string.
Proof.
  unfold set_add. destruct (set_has l x) eqn:E.
  - destruct (String.eqb_spec x y) as [<-|Hne].
    + now rewrite E.
    + now rewrite orb_false_r.
  - unfold set_has. rewrite existsb_app. simpl.
    now rewrite orb_false_r, (String.eqb_sym y x).
Qed.

Lemma register_keeps_templates (p : Page) (t : tables) (x : string) :
  set_has (tempTplSet t) x = true -> set_has (tempTplSet (register p t)) x = true.
Proof.
  intros H. cbn [register tempTplSet].
  destruct (template p) as [tpl|]; [|exact H].
  destruct (truthy tpl); [|exact H].
  rewrite set_has_add, H. reflexivity.
Qed.

(** Reading back a dictionary of pages after one assignment. *)
Lemma get_set_page (o : obj Page) (k k' : string) (v x : Page) :
  get (set o k v) k' = Own x -> x = v \/ get o k' = Own x.
Proof.
  unfold set, get.
  destruct (String.eqb_spec k "__proto__") as [->|Hk]; cbn [is_object page_shape own proto].
  - destruct (own_get (own o) k') as [y|]; [now right|].
    destruct (k' =? "__proto__")%string; [intros [= <-]; now left|].
    destruct (has_field v k'); [discriminate|].
    destruct (is_prototype_member k'); discriminate.
  - rewrite own_get_define.
    destruct (k =? k')%string; [intros [= <-]; now left|].
    now right.
Qed.

Lemma register_templates_ok (p : Page) (t : tables) :
  templates_ok t -> templates_ok (register p t).
Proof.
  intros Hok id page tpl Hget Htpl Htruthy.
  cbn [register tempVirtualPageMap] in Hget.
  apply get_set_page in Hget as [->|Hget].
  - cbn [register tempTplSet]. rewrite Htpl, Htruthy, set_has_add.
    now rewrite String.eqb_refl, orb_true_r.
  - apply register_keeps_templates. eapply Hok; eauto.
Qed.

Lemma configInit_loop_templates (ps : list Page) :
  forall t t',
    configInit_loop ps t = Ok t' ->
    (templates_ok t -> templates_ok t')
    /\ (forall x, set_has (tempTplSet t) x = true -> set_has (tempTplSet t') x = true).
Proof.
  induction ps as [|q ps IH]; intros t t' H; cbn [configInit_loop] in H.
  - injection H as <-. split; trivial.
  - passed_checks q H.
    destruct (truthy_property _).
    + now apply IH.
    + destruct (IH _ _ H) as [Hok Hkeep]. split.
      * intros Ht. apply Hok. now apply register_templates_ok.
      * intros x Hx. apply Hkeep. now apply register_keeps_templates.
Qed.

Lemma fresh_templates_ok : templates_ok (fresh_tables options).
Proof.
  intros id page tpl H. unfold get in H. cbn [fresh_tables tempVirtualPageMap empty own proto own_get] in H.
  destruct (is_prototype_member id); discriminate H.
Qed.

End TemplateSetFacts.

(** C2, as stated, fails: the page template "layout.ejs" is in the set,
    and a change to it sends nothing. *)
Lemma template_change_counterexample :
  ~ template_change_as_specified Demo.host.
Proof.
  intros H.
  specialize (H Demo.ejs_state Demo.resolved "/proj/layout.ejs" eq_refl eq_refl).
  discriminate H.
Qed.

(** C2, amended.  Once [configInit] has built the table: a change to a
    file whose root-relative path is not in the template set sends
    nothing; a change to a file whose path ends in ".html" and whose
    root-relative path is in the set sends the full-reload message; a
    member whose path does not end in ".html" sends nothing.  The set
    holds the default template and the template of every page the table
    serves. *)
Theorem template_change_reloads :
  forall (host : Host) (options : MpaOptions) (ps : list Page)
         (st st' : state) (rc : ResolvedConfig) (file : string),
    configInit options ps st = (Ok tt, st') ->
    resolvedConfig st' = Some rc ->
    (set_has (tplSet st') (path_relative (root rc) file) = false ->
     on_change st' file = Ok [])
    /\ (endsWith file ".html" = true ->
        set_has (tplSet st') (path_relative (root rc) file) = true ->
        on_change st' file = Ok [FullReload "*"])
    /\ (endsWith file ".html" = false -> on_change st' file = Ok [])
    /\ set_has (tplSet st') (default_template options) = true
    /\ (forall id page tpl,
          get (virtualPageMap st') id = Own page ->
          template page = Some tpl -> truthy tpl = true ->
          set_has (tplSet st') tpl = true).
Proof.
  intros host options ps st st' rc file Hinit Hrc.
  unfold on_change. rewrite Hrc.
  repeat split.
  - intros ->. now destruct (endsWith file ".html").
  - now intros -> ->.
  - now intros ->.
  - published Hinit t Hloop. cbn [publish tplSet].
    apply (configInit_loop_templates _ _ _ Hloop).
    cbn. now rewrite String.eqb_refl.
  - published Hinit t Hloop. cbn [publish tplSet virtualPageMap].
    apply (configInit_loop_templates _ _ _ Hloop). apply fresh_templates_ok.
Qed.

Lemma template_change_reloads_witness :
  on_change Demo.ejs_state "/proj/layout.html" = Ok [FullReload "*"]
  /\ on_change Demo.ejs_state "/proj/layout.ejs" = Ok []
  /\ on_change Demo.ejs_state "/proj/other.html" = Ok [].
Proof.
  pose proof (fun file =>
    template_change_reloads Demo.host (Demo.options_of Demo.ejs_pages)
      Demo.ejs_pages (configResolved Demo.resolved initial_state)
      Demo.ejs_state Demo.resolved file eq_refl eq_refl) as H.
  split; [|split].
  - apply (proj1 (proj2 (H "/proj/layout.html"))); reflexivity.
  - apply (proj1 (proj2 (proj2 (H "/proj/layout.ejs")))); reflexivity.
  - apply (proj1 (H "/proj/other.html")); reflexivity.
Defined.

(** ** The middleware: custom rewrites *)

Module RegExpObjectFacts.
Import StringFacts RegExpFacts.


(** Without the global and the sticky flag the object has no part in the
    search and is left as it is. *)
Lemma regexp_exec_plain (re : regexp) (s : string) :
  global re = false -> sticky re = false ->
  regexp_exec re s = (exec (pattern re) s, re).
Proof. intros Hg Hy. unfold regexp_exec. now rewrite Hg, Hy. Qed.

Lemma regexp_test_plain (re : regexp) (s : string) :
  global re = false -> sticky re = false ->
  regexp_test re s = (test (pattern re) s, re).
Proof.
  intros Hg Hy. unfold regexp_test, test. rewrite regexp_exec_plain by assumption.
  now destruct (exec (pattern re) s).
Qed.




Lemma match_all_step (fuel : nat) (re : regexp) (s : string) :
  match_all (S fuel) re s
  = match regexp_exec re s with
    | (None, re') => ([], re')
    | (Some m, re') =>
        let next :=
          match matched m with
          | EmptyString => set_lastIndex (S (lastIndex re')) re'
          | String _ _ => re'
          end in
        let (texts, final) := match_all fuel next s in
        (matched m :: texts, final)
    end.
Proof. reflexivity. Qed.




(** *** The loop of [match] does not run short of rounds *)

Lemma length_drop (n : nat) (s : string) :
  String.length (drop n s) = String.length s - n.
Proof.
  revert s. induction n as [|n IH]; intros s.
  - rewrite drop_0. lia.
  - destruct s as [|c s]; [reflexivity|]. simpl. apply IH.
Qed.

Lemma exec_from_index (total : nat) (r : regex) (s : string) (m : match_result) :
  exec_from total r s = Some m -> total - String.length s <= index m.
Proof.
  revert m. induction s as [|c s IH]; cbn [exec_from]; intros m H.
  - destruct (run total r EmptyString [] accept) as [[rest caps]|];
      [|discriminate H].
    injection H as <-. cbn [index]. lia.
  - destruct (run total r (String c s) [] accept) as [[rest caps]|].
    + injection H as <-. cbn [index String.length]. lia.
    + apply IH in H. cbn [String.length]. lia.
Qed.

(** A match of a pattern with the global or the sticky flag begins at
    [lastIndex] or behind it, and its end index becomes the [lastIndex]. *)
Lemma regexp_exec_progress (re re' : regexp) (s : string) (m : match_result) :
  global re || sticky re = true ->
  regexp_exec re s = (Some m, re') ->
  lastIndex re <= String.length s
  /\ lastIndex re <= index m
  /\ re' = set_lastIndex (end_index m) re.
Proof.
  intros Hf H. unfold regexp_exec in H. rewrite Hf in H.
  destruct (String.length s <? lastIndex re)%nat eqn:El; [discriminate H|].
  apply Nat.ltb_ge in El. split; [exact El|].
  assert (Hlen : String.length s - String.length (drop (lastIndex re) s)
                 = lastIndex re).
  { rewrite length_drop. lia. }
  destruct (sticky re).
  - unfold exec_at in H.
    destruct (run _ _ _ [] accept) as [[rest caps]|]; [|discriminate H].
    injection H as <- <-. cbn [index]. split; [lia | reflexivity].
  - destruct (exec_from _ _ _) as [m0|] eqn:E; [|discriminate H].
    injection H as <- <-. apply exec_from_index in E. split; [lia | reflexivity].
Qed.

(** Once the rounds left outnumber the places where a match can still
    begin, one round more changes nothing: the loop ends on a [null] of
    [exec], never for want of rounds. *)
Lemma match_all_fuel (fuel : nat) :
  forall (re : regexp) (s : string),
    global re || sticky re = true ->
    S (S (String.length s) - lastIndex re) <= fuel ->
    match_all (S fuel) re s = match_all fuel re s.
Proof.
  induction fuel as [|fuel IH]; intros re s Hf Hb; [lia|].
  rewrite (match_all_step (S fuel)), (match_all_step fuel).
  destruct (regexp_exec re s) as [[m|] re'] eqn:E; [|reflexivity].
  destruct (regexp_exec_progress _ _ _ _ Hf E) as (Hlen & Hidx & ->).
  cbv zeta. rewrite IH; [reflexivity | |].
  - destruct (matched m); exact Hf.
  - unfold end_index.
    destruct (matched m) as [|c t]; cbn [lastIndex set_lastIndex String.length]; lia.
Qed.

(** The rounds that [match] is given are enough. *)
Lemma string_match_rounds (re : regexp) (s : string) (more : nat) :
  global re = true ->
  match_all (more + S (S (String.length s))) (set_lastIndex 0 re) s
  = match_all (S (S (String.length s))) (set_lastIndex 0 re) s.
Proof.
  intros Hg. induction more as [|more IH]; [reflexivity|].
  cbn [Nat.add]. rewrite match_all_fuel; [exact IH | |].
  - cbn [global sticky set_lastIndex]. now rewrite Hg.
  - cbn [lastIndex set_lastIndex]. lia.
Qed.

End RegExpObjectFacts.

Section RewriteFacts.

Context `{host : Host}.
Import RegExpObjectFacts.



End RewriteFacts.




(** *** What the flags of a rule change *)

(** A rule with the global flag rewrites; the match handed to
    [evaluateRewriteRule] holds the matched texts, no captures. *)
Example global_rule_rewrites :
  fst (string_match "/main" (snd (regexp_test (Demo.rule_regexps 4) "/main")))
  = Some (AllMatches ["/ma"])
  /\ fst (middleware (Demo.one_rule_options 4) Demo.routed_state
            Demo.rule_regexps Demo.main_request)
     = Ok (Rewritten "/landing.html").
Proof. split; reflexivity. Qed.

(** The sticky rule is left with [lastIndex] 0 by the failed [match], so
    the next request for the same pathname is handled in the same way. *)
Example sticky_rule_next_request :
  let h1 := snd (middleware (Demo.one_rule_options 3) Demo.routed_state
                   Demo.rule_regexps Demo.main_request) in
  lastIndex (h1 3) = 0
  /\ exists res,
       fst (middleware (Demo.one_rule_options 3) Demo.routed_state h1
              Demo.main_request)
       = Ok (Served "main.html" res).
Proof. split; [reflexivity | eexists; reflexivity]. Qed.

(** ** The composite pattern *)

Module CompositeFacts.
Import StringFacts RegExpFacts.

Lemma close_frame_alt_list (f : frame) :
  close_frame f = alt_list (rev (f_alts f) ++ [seq_of (rev (f_terms f))]).
Proof. reflexivity. Qed.

Lemma parse_loop_open (p : string) (g : nat) (cur : frame) (stack : list frame) :
  (forall t, p <> String "?" t) ->
  parse_loop (String "(" p) g cur stack
  = parse_loop p (S g) (open_frame (Some g)) (cur :: stack).
Proof.
  intros H. destruct p as [|c t]; [reflexivity|].
  destruct c as [[|] [|] [|] [|] [|] [|] [|] [|]]; try reflexivity.
  now destruct (H t).
Qed.

Lemma names_not_question (names : list string) (rest : string) :
  Forall literal_text names ->
  forall t, join "|" names ++ String ")" rest <> String "?" t.
Proof.
  intros Hn t. destruct names as [|n ns]; [discriminate|].
  inversion Hn as [|? ? Hlit _]; subst.
  destruct n as [|c n].
  - destruct ns; discriminate.
  - unfold literal_text in Hlit. simpl in Hlit.
    apply andb_prop in Hlit as [Hc _].
    destruct ns; simpl; intros [= -> _]; discriminate Hc.
Qed.

(** The alternatives of a group, up to its closing parenthesis. *)
Lemma parse_loop_names (names : list string) :
  forall n alts rest g cap parent stack,
    Forall literal_text (n :: names) ->
    parse_loop (join "|" (n :: names) ++ String ")" rest) g
      (Frame cap alts [] NoAtom) (parent :: stack)
    = parse_loop rest g
        (push_atom (Group cap (alt_list (rev alts ++ map literal (n :: names))))
           parent)
        stack.
Proof.
  induction names as [|n' names IH]; intros n alts rest g cap parent stack Hn;
    inversion Hn as [|? ? Hlit Hrest]; subst.
  - cbn [join String.concat]. rewrite parse_loop_lits by exact Hlit.
    cbn [parse_loop]. rewrite close_frame_alt_list.
    now rewrite push_lits_capture, push_lits_alts, push_lits_terms,
      app_nil_r, rev_involutive.
  - change (join "|" (n :: n' :: names))
      with (n ++ String "|" (join "|" (n' :: names))).
    rewrite append_assoc. rewrite parse_loop_lits by exact Hlit.
    change (String "|" (join "|" (n' :: names)) ++ String ")" rest)
      with (String "|" (join "|" (n' :: names) ++ String ")" rest)).
    cbn [parse_loop]. unfold next_alternative.
    rewrite push_lits_capture, push_lits_alts, push_lits_terms,
      app_nil_r, rev_involutive.
    cbn [f_capture f_alts f_terms].
    rewrite IH by exact Hrest. cbn [rev map]. now rewrite <- app_assoc.
Qed.

(** The source text of the composite pattern parses to [composite] when
    the prefix and the names are literal texts. *)
Lemma parse_composite (prefix : string) (names : list string) :
  literal_text prefix ->
  Forall literal_text names ->
  parse (prefix ++ "(" ++ join "|" names ++ ")(?:\.html?)?(\?|#|$).*")
  = Parsed (composite prefix names).
Proof.
  intros Hp Hn. unfold parse.
  rewrite parse_loop_lits by exact Hp.
  change ("(" ++ join "|" names ++ ")(?:\.html?)?(\?|#|$).*")
    with (String "(" (join "|" names ++ String ")" "(?:\.html?)?(\?|#|$).*")).
  rewrite parse_loop_open by now apply names_not_question.
  destruct names as [|n names].
  - cbn. rewrite push_lits_alts, push_lits_terms. cbn.
    unfold composite, route_tail. cbn [map alt_list].
    rewrite app_nil_r, rev_involutive, <- !app_assoc.
    reflexivity.
  - unfold open_frame. rewrite parse_loop_names by exact Hn.
    cbn. rewrite push_lits_alts, push_lits_terms. cbn.
    unfold composite, route_tail.
    rewrite app_nil_r, rev_involutive, <- !app_assoc.
    reflexivity.
Qed.

End CompositeFacts.

(** ** Matching the composite pattern *)

Module RouteFacts.
Import StringFacts RegExpFacts CompositeFacts.

Lemma name_char_facts (c : ascii) :
  name_char c = true ->
  ("." =? c)%char = false /\ ("?" =? c)%char = false
  /\ ("#" =? c)%char = false /\ ("/" =? c)%char = false.
Proof.
  destruct c as [[|] [|] [|] [|] [|] [|] [|] [|]]; intros H;
    try discriminate H; repeat split.
Qed.

Lemma name_text_literal (w : string) : name_text w -> literal_text w.
Proof.
  unfold name_text, literal_text. induction w as [|c w IH]; simpl; [trivial|].
  intros H. apply andb_prop in H as [Hc Hw]. rewrite (IH Hw), andb_true_r.
  unfold name_char in Hc. apply andb_prop in Hc as [Hc _].
  now apply andb_prop in Hc as [Hc _].
Qed.

Lemma name_text_no_slash (w : string) : name_text w -> includes w "/" = false.
Proof.
  unfold name_text. induction w as [|c w IH]; [trivial|].
  intros H. cbn [all_chars] in H. apply andb_prop in H as [Hc Hw].
  destruct (name_char_facts c Hc) as (_ & _ & _ & Hs).
  change (includes (String c w) "/")
    with (String.prefix "/" (String c w) || includes w "/").
  rewrite prefix_cons, Hs. now apply IH.
Qed.

Lemma filter_all {A} (l : list A) : filter (fun _ => true) l = l.
Proof. induction l as [|x l IH]; simpl; [reflexivity | now rewrite IH]. Qed.

Lemma reset_captures_nil (caps : captures) : reset_captures [] caps = caps.
Proof.
  induction caps as [|p caps IH]; [reflexivity|].
  change (reset_captures [] (p :: caps)) with (p :: reset_captures [] caps).
  now rewrite IH.
Qed.

(** After a name, a further name character ends the attempt. *)
Lemma after_name_fails (total : nat) (c : ascii) (s : string) (caps : captures) :
  name_char c = true ->
  run total after_name (String c s) caps accept = None.
Proof.
  intros H. destruct (name_char_facts c H) as (Hdot & Hq & Hh & _).
  cbn [after_name html_suffix terminator alt_list alt_of seq_of run orelse].
  now rewrite Hdot, Hq, Hh.
Qed.

Lemma after_name_end (total : nat) (caps : captures) :
  run total after_name EmptyString caps accept
  = Some (EmptyString, (2, EmptyString) :: caps).
Proof. reflexivity. Qed.

Lemma after_name_html (total : nat) (caps : captures) :
  run total after_name ".html" caps accept
  = Some (EmptyString, (2, EmptyString) :: caps).
Proof. cbn. now rewrite !reset_captures_nil. Qed.

Lemma after_name_query (total : nat) (caps : captures) :
  run total after_name "?x=1" caps accept
  = Some (EmptyString, (2, "?") :: caps).
Proof. cbn. now rewrite !filter_all. Qed.

(** A name that starts a path of the shape [p ++ suffix] is [p], or it
    stops in front of a name character. *)
Lemma prefix_name_cases (n : string) :
  forall p suffix,
    name_text n -> name_text p ->
    (forall c t, suffix = String c t -> name_char c = false) ->
    String.prefix n (p ++ suffix) = true ->
    n = p
    \/ exists c t, name_char c = true
                   /\ drop (String.length n) (p ++ suffix) = String c t.
Proof.
  unfold name_text.
  induction n as [|a n IH]; intros p suffix Hn Hp Hsuf Hpre.
  - destruct p as [|b p]; [now left|].
    right. exists b, (p ++ suffix). simpl in Hp.
    apply andb_prop in Hp as [Hb _]. now split.
  - simpl in Hn. apply andb_prop in Hn as [Ha Hn].
    destruct p as [|b p].
    + exfalso. cbn [append] in Hpre. destruct suffix as [|c t]; [discriminate|].
      rewrite prefix_cons in Hpre. apply andb_prop in Hpre as [Hac _].
      apply Ascii.eqb_eq in Hac. subst c.
      rewrite (Hsuf a t eq_refl) in Ha. discriminate.
    + change (String b p ++ suffix) with (String b (p ++ suffix)) in *.
      rewrite prefix_cons in Hpre. apply andb_prop in Hpre as [Hab Hpre].
      apply Ascii.eqb_eq in Hab. subst b.
      simpl in Hp. apply andb_prop in Hp as [_ Hp].
      destruct (IH p suffix Hn Hp Hsuf Hpre) as [->|H]; [now left|].
      right. exact H.
Qed.

Lemma run_alt_all_fail (total : nat) (names : list string) (s : string)
      (caps : captures) (k : cont) :
  (forall n, In n names -> run total (literal n) s caps k = None) ->
  names <> [] ->
  run total (alt_list (map literal names)) s caps k = None.
Proof.
  induction names as [|n ns IH]; intros Hfail Hne; [contradiction|].
  destruct ns as [|n2 ns].
  - apply Hfail. now left.
  - change (alt_list (map literal (n :: n2 :: ns)))
      with (Alt (literal n) (alt_list (map literal (n2 :: ns)))).
    cbn [run]. rewrite (Hfail n) by now left. cbn [orelse].
    apply IH; [|discriminate]. intros m Hm. apply Hfail. now right.
Qed.

(** Ordered choice among literal names when only [p] can succeed. *)
Lemma run_alt_pick (total : nat) (names : list string) (p s : string)
      (caps : captures) (k : cont) :
  (forall n, In n names -> n <> p -> run total (literal n) s caps k = None) ->
  In p names ->
  run total (alt_list (map literal names)) s caps k
  = run total (literal p) s caps k.
Proof.
  induction names as [|n ns IH]; intros Hfail Hin; [contradiction|].
  destruct ns as [|n2 ns].
  - destruct Hin as [->|[]]. reflexivity.
  - change (alt_list (map literal (n :: n2 :: ns)))
      with (Alt (literal n) (alt_list (map literal (n2 :: ns)))).
    cbn [run].
    assert (Hrest : forall m, In m (n2 :: ns) -> m <> p ->
                              run total (literal m) s caps k = None).
    { intros m Hm. apply Hfail. now right. }
    destruct (string_dec n p) as [->|Hnp].
    + destruct (run total (literal p) s caps k) eqn:E; [reflexivity|].
      cbn [orelse].
      destruct (in_dec string_dec p (n2 :: ns)) as [Hp|Hp].
      * now rewrite IH.
      * apply run_alt_all_fail; [|discriminate].
        intros m Hm. apply Hrest; [exact Hm|]. now intros ->.
    + rewrite (Hfail n) by (now left || exact Hnp). cbn [orelse].
      apply IH; [exact Hrest|]. destruct Hin as [->|Hin]; [contradiction | exact Hin].
Qed.

(** The composite pattern, unfolded after its literal prefix. *)
Lemma run_composite (total : nat) (prefix : string) (names : list string) (s : string) :
  run total (composite prefix names) (prefix ++ s) [] accept
  = run total (alt_list (map literal names)) s []
      (fun s' caps' =>
         run total after_name s' (set_capture 1 (consumed s s') caps') accept).
Proof.
  unfold composite. rewrite run_lits, prefix_append, drop_append. reflexivity.
Qed.

(** A literal name in front of a name character, or of a different
    path, ends the attempt. *)
Lemma run_other_name (total : nat) (n p suffix : string) (caps : captures) :
  name_text n -> name_text p ->
  (forall c t, suffix = String c t -> name_char c = false) ->
  n <> p ->
  run total (literal n) (p ++ suffix) caps
    (fun s' caps' =>
       run total after_name s' (set_capture 1 (consumed (p ++ suffix) s') caps') accept)
  = None.
Proof.
  intros Hn Hp Hsuf Hne. unfold literal. rewrite run_lits_only.
  destruct (String.prefix n (p ++ suffix)) eqn:E; [|reflexivity].
  destruct (prefix_name_cases n p suffix Hn Hp Hsuf E) as [->|(c & t & Hc & Hd)];
    [contradiction|].
  rewrite Hd. now apply after_name_fails.
Qed.

(** At a registered name the attempt at offset 0 goes on with the text
    after the name, the first capture holding the name. *)
Lemma run_composite_name (total : nat) (prefix : string) (names : list string)
      (p suffix : string) :
  Forall name_text names -> In p names ->
  (forall c t, suffix = String c t -> name_char c = false) ->
  run total (composite prefix names) (prefix ++ p ++ suffix) [] accept
  = run total after_name suffix [(1, p)] accept.
Proof.
  intros Hnames Hin Hsuf. rewrite run_composite.
  assert (Hp : name_text p) by (rewrite Forall_forall in Hnames; auto).
  rewrite (run_alt_pick total names p).
  - unfold literal. rewrite run_lits_only, prefix_append, drop_append.
    now rewrite consumed_append.
  - intros n Hn Hne. apply run_other_name; auto.
    rewrite Forall_forall in Hnames; auto.
  - exact Hin.
Qed.

(** A path that ends with an unregistered name: no match at offset 0,
    when some name is registered. *)
Lemma run_composite_unknown (total : nat) (prefix : string) (names : list string)
      (unknown : string) :
  Forall name_text names -> name_text unknown -> ~ In unknown names ->
  names <> [] ->
  run total (composite prefix names) (prefix ++ unknown) [] accept = None.
Proof.
  intros Hnames Hu Hnot Hne. rewrite run_composite.
  apply run_alt_all_fail; [|exact Hne].
  intros n Hn. rewrite <- (append_nil_r unknown).
  apply run_other_name; auto.
  - rewrite Forall_forall in Hnames; auto.
  - discriminate.
  - intros ->. contradiction.
Qed.

(** The prefix ends with "/" and the name holds none, so the prefix does
    not occur at a later offset. *)
Lemma prefix_not_later (q unknown : string) (i : nat) :
  includes unknown "/" = false ->
  String.prefix (q ++ "/") (drop (S i) ((q ++ "/") ++ unknown)) = false.
Proof.
  intros Hno.
  destruct (String.prefix (q ++ "/") (drop (S i) ((q ++ "/") ++ unknown))) eqn:E;
    [|reflexivity].
  apply prefix_split in E.
  assert (H : drop (String.length q) (drop (S i) ((q ++ "/") ++ unknown))
              = drop i unknown).
  { rewrite drop_drop, append_assoc.
    replace (S i + String.length q)%nat with (String.length q + S i)%nat by lia.
    rewrite drop_append_ge. reflexivity. }
  rewrite E, append_assoc, drop_append in H.
  assert (Hp : String.prefix "/" (drop i unknown) = true).
  { rewrite <- H. apply prefix_append. }
  rewrite (includes_false_drop _ _ i Hno) in Hp. discriminate.
Qed.

Lemma run_composite_later (total : nat) (q : string) (names : list string)
      (unknown : string) (i : nat) :
  includes unknown "/" = false ->
  run total (composite (q ++ "/") names) (drop (S i) ((q ++ "/") ++ unknown))
    [] accept = None.
Proof.
  intros Hno. unfold composite. rewrite run_lits.
  now rewrite prefix_not_later.
Qed.

End RouteFacts.

(** ** [Object.keys] *)

Module KeysFacts.

Lemma In_insert_index (k : string) (n : N) (l : list (string * N)) (x : string) :
  In x (map fst (insert_index k n l)) <-> x = k \/ In x (map fst l).
Proof.
  induction l as [|[k' n'] l IH]; simpl.
  - intuition.
  - destruct (n <=? n')%N; simpl; [intuition|].
    rewrite IH. intuition.
Qed.

Lemma In_index_keys (ks : list string) (x : string) :
  In x (map fst (index_keys ks)) <-> In x ks /\ is_array_index x = true.
Proof.
  unfold is_array_index. induction ks as [|k ks IH]; simpl; [intuition|].
  destruct (array_index k) as [n|] eqn:E.
  - rewrite In_insert_index, IH. split.
    + intros [->|[H1 H2]]; [|now auto]. rewrite E. auto.
    + intros [[->|H1] H2]; auto.
  - rewrite IH. split; [intuition|].
    intros [[->|H1] H2]; [|now auto]. rewrite E in H2. discriminate.
Qed.

(** [Object.keys] lists exactly the names of the own properties. *)
Lemma In_keys {V} (o : obj V) (x : string) :
  In x (keys o) <-> In x (map fst (own o)).
Proof.
  unfold keys. rewrite in_app_iff, In_index_keys, filter_In, negb_true_iff.
  destruct (is_array_index x); intuition discriminate.
Qed.

Lemma own_get_Some_In {V} (l : list (string * V)) (k : string) :
  In k (map fst l) <-> exists v, own_get l k = Some v.
Proof.
  split.
  - induction l as [|[k0 v0] l IH]; simpl; [contradiction|].
    destruct (String.eqb_spec k0 k) as [->|Hne]; [eauto|].
    intros [H|H]; [contradiction | auto].
  - intros [v H]. eapply JsObjectFacts.own_get_In; eauto.
Qed.

(** Without array-index names, [Object.keys] is the creation order. *)
Lemma keys_creation_order {V} (o : obj V) :
  Forall (fun k => is_array_index k = false) (map fst (own o)) ->
  keys o = map fst (own o).
Proof.
  unfold keys. generalize (map fst (own o)) as ks.
  induction ks as [|k ks IH]; intros H; [reflexivity|].
  inversion H as [|? ? Hk Hks]; subst. specialize (IH Hks).
  unfold is_array_index in Hk. simpl.
  destruct (array_index k) eqn:E; [discriminate|].
  unfold is_array_index at 1. rewrite E. simpl.
  assert (Hnil : map fst (index_keys ks) = []).
  { destruct (map fst (index_keys ks)) as [|x l] eqn:Ex; [reflexivity|].
    assert (Hin : In x (map fst (index_keys ks))) by (rewrite Ex; now left).
    apply In_index_keys in Hin as [Hin Hidx].
    rewrite Forall_forall in Hks. rewrite (Hks x Hin) in Hidx. discriminate. }
  rewrite Hnil in *. simpl in *. now rewrite IH.
Qed.

End KeysFacts.

(** ** The [config] hook and the composite pattern *)

Section ConfigFacts.

Context `{host : Host} (options : MpaOptions).
Import CompositeFacts KeysFacts.

Lemma config_ok (config_base : option string) (st st' : state) (r : ConfigResult) :
  config options config_base st = (Ok r, st') ->
  exists re,
    rewriteReg st' = Some re
    /\ source re = rewriteReg_source config_base st'
    /\ parse (source re) = Parsed (compiled re)
    /\ names_ok {| tempInputMap := inputMap st';
                   tempVirtualPageMap := virtualPageMap st';
                   tempTplSet := tplSet st' |}.
Proof.
  unfold config, configInit. intros H.
  destruct (scanPages (scanOptions options)) as [scanned| |]; cbn [bind] in H;
    try discriminate.
  destruct (configInit_loop _ _) as [t| |] eqn:Hloop; try discriminate.
  destruct (parse _) as [re| |] eqn:Hparse; try discriminate.
  injection H as _ <-. eexists. cbn [rewriteReg source compiled inputMap].
  repeat split.
  - exact Hparse.
  - apply (configInit_loop_ok _ _ _ Hloop (fresh_tables_ok options)).
  - cbn [tempInputMap publish inputMap]. 
    apply (configInit_loop_ok _ _ _ Hloop (fresh_tables_ok options)).
Qed.

Lemma config_compiled (config_base : option string) (st st' : state)
      (r : ConfigResult) (re : RegExpObject) :
  config options config_base st = (Ok r, st') ->
  rewriteReg st' = Some re ->
  literal_text (route_prefix config_base) ->
  Forall literal_text (keys (inputMap st')) ->
  compiled re = composite (route_prefix config_base) (keys (inputMap st')).
Proof.
  intros H Hre Hp Hn.
  destruct (config_ok _ _ _ _ H) as (re' & Hre' & Hsrc & Hparse & _).
  rewrite Hre in Hre'. injection Hre' as <-.
  rewrite Hsrc in Hparse. unfold rewriteReg_source in Hparse.
  fold (route_prefix config_base) in Hparse.
  rewrite (parse_composite _ _ Hp Hn) in Hparse. now injection Hparse.
Qed.

End ConfigFacts.

Import CompositeFacts KeysFacts RouteFacts.

(** C1, as stated, fails: for the single page "a.b" served at "/", the
    pattern matches inside "/x/aXb", at offset 2, and captures "aXb". *)
Lemma pattern_counterexample : ~ pattern_as_specified Demo.host.
Proof.
  intros H.
  destruct (H (Demo.options_of [Demo.page "a.b"]) (Some "/") initial_state
              _ _ _ "/x/aXb" (MatchResult 2 "/aXb" [(2, EmptyString); (1, "aXb")])
              eq_refl eq_refl eq_refl) as [H0 _].
  discriminate H0.
Qed.

(** C1, amended.  When the [config] hook succeeds, the pattern it builds
    has the source text [normalizePath(`/${base}/`)], then "(", the keys
    of [inputMap] joined by "|" as they are, then
    ")(?:\.html?)?(\?|#|$).*": no start anchor and no escaping.  The keys
    are the registered names, in [Object.keys] order.  When the prefix
    and the names hold no pattern syntax, the compiled pattern is the
    literal prefix, the alternation of the literal names as first capture,
    the optional suffix, the terminator as second capture and [.*]. *)
Theorem rewriteReg_source_shape :
  forall (host : Host) (options : MpaOptions) (config_base : option string)
         (st st' : state) (r : ConfigResult),
    config options config_base st = (Ok r, st') ->
    exists re,
      rewriteReg st' = Some re
      /\ source re
         = normalizePath ("/" ++ interpolate config_base ++ "/")
             ++ "(" ++ join "|" (keys (inputMap st')) ++ ")(?:\.html?)?(\?|#|$).*"
      /\ parse (source re) = Parsed (compiled re)
      /\ (forall n, In n (keys (inputMap st'))
                    <-> exists f, own_get (own (inputMap st')) n = Some f)
      /\ (literal_text (route_prefix config_base) ->
          Forall literal_text (keys (inputMap st')) ->
          compiled re
          = composite (route_prefix config_base) (keys (inputMap st'))).
Proof.
  intros host options config_base st st' r H.
  destruct (config_ok options _ _ _ _ H) as (re & Hre & Hsrc & Hparse & _).
  exists re. repeat split; try assumption.
  - intros Hin. apply own_get_Some_In. now apply In_keys.
  - intros Hf. apply In_keys. now apply own_get_Some_In.
  - intros Hp Hn. eapply config_compiled; eauto.
Qed.

Lemma rewriteReg_source_shape_witness :
  exists re,
    rewriteReg Demo.routed_state = Some re
    /\ source re = "/(main)(?:\.html?)?(\?|#|$).*"
    /\ compiled re = composite "/" ["main"].
Proof.
  destruct (rewriteReg_source_shape Demo.host Demo.rewriting_options (Some "/")
              initial_state
              (snd (config Demo.rewriting_options (Some "/") initial_state))
              {| optimizeDeps_entries := ["/src/main.ts"];
                 rollup_input := inputMap Demo.routed_state |}
              eq_refl)
    as (re & Hre & Hsrc & _ & _ & Hcompiled).
  exists re. split; [exact Hre|]. split; [exact Hsrc|].
  apply Hcompiled; [reflexivity|]. repeat constructor.
Defined.

(** ** Route resolution *)

(** C4, as stated, fails: the page "a+b" is registered with served path
    "a+b.html", and "/a+b" is not routed to it, since "+" in the pattern
    is a quantifier. *)
Lemma round_trip_counterexample : ~ round_trip_as_specified Demo.host.
Proof.
  intros H.
  destruct (H (Demo.options_of [Demo.page "a+b"]) (Some "/") initial_state
              _ _ "a+b" "a+b.html" eq_refl eq_refl) as [[H0 _] _].
  discriminate H0.
Qed.

Section RoutingFacts.

Context `{host : Host}.

Lemma resolves_of_key (st : state) (pathname p f : string) :
  inputMapKey st pathname = Some p ->
  truthy p = true ->
  own_get (own (inputMap st)) p = Some f ->
  truthy f = true ->
  resolves_to st pathname f.
Proof.
  intros Hkey Hp Hf Hft.
  assert (H : fileName_of st pathname = Own f).
  { unfold fileName_of. rewrite Hkey, Hp. unfold get. now rewrite Hf. }
  split; [exact H|]. intros u original.
  unfold virtual_page_routing. now rewrite H, Hft.
Qed.

Lemma passes_of_missing (st : state) (pathname : string) :
  fileName_of st pathname = Missing -> passes_through st pathname.
Proof.
  intros H. split; [exact H|]. intros u original.
  unfold virtual_page_routing. now rewrite H.
Qed.

(** The first capture at a path made of the prefix, a registered name
    and one of the three endings. *)
Lemma inputMapKey_registered (st : state) (re : RegExpObject) (prefix : string)
      (names : list string) (p suffix : string) (second : string) :
  rewriteReg st = Some re ->
  compiled re = composite prefix names ->
  Forall name_text names -> In p names ->
  (forall c t, suffix = String c t -> name_char c = false) ->
  (forall total caps,
      run total after_name suffix caps accept
      = Some (EmptyString, (2, second) :: caps)) ->
  inputMapKey st (prefix ++ p ++ suffix) = Some p.
Proof.
  intros Hre Hc Hnames Hin Hsuf Htail.
  unfold inputMapKey. rewrite Hre, Hc. unfold exec.
  rewrite (exec_from_found _ _ _ EmptyString [(2, second); (1, p)]).
  - reflexivity.
  - rewrite run_composite_name by assumption. apply Htail.
Qed.

(** No first capture, or an empty one, at a path made of the prefix and
    an unregistered name. *)
Lemma inputMapKey_unknown (st : state) (re : RegExpObject) (q : string)
      (names : list string) (unknown : string) :
  rewriteReg st = Some re ->
  compiled re = composite (q ++ "/") names ->
  Forall name_text names -> name_text unknown -> ~ In unknown names ->
  inputMapKey st ((q ++ "/") ++ unknown) = None
  \/ inputMapKey st ((q ++ "/") ++ unknown) = Some EmptyString.
Proof.
  intros Hre Hc Hnames Hu Hnot.
  unfold inputMapKey. rewrite Hre, Hc. unfold exec.
  set (total := String.length ((q ++ "/") ++ unknown)).
  assert (Hlater : forall s,
             (exists c, (q ++ "/") ++ unknown = String c s) ->
             exec_from total (composite (q ++ "/") names) s = None).
  { intros s [c Hs]. apply exec_from_none. intros i.
    replace (drop i s) with (drop (S i) ((q ++ "/") ++ unknown))
      by (rewrite Hs; reflexivity).
    apply run_composite_later. now apply name_text_no_slash. }
  assert (Hcons : exists c s, (q ++ "/") ++ unknown = String c s).
  { destruct q; simpl; eauto. }
  destruct Hcons as (c & s & Hs).
  destruct names as [|n names].
  - destruct unknown as [|d unknown].
    + right. rewrite append_nil_r.
      rewrite (exec_from_found _ _ _ EmptyString [(2, EmptyString); (1, EmptyString)]).
      * reflexivity.
      * rewrite <- (append_nil_r (q ++ "/")) at 2. rewrite run_composite.
        reflexivity.
    + left. rewrite Hs. rewrite exec_from_skip.
      * rewrite Hlater; eauto.
      * rewrite <- Hs, run_composite. cbn [map alt_list run].
        apply after_name_fails. unfold name_text in Hu. simpl in Hu.
        now apply andb_prop in Hu as [Hd _].
  - left. rewrite Hs. rewrite exec_from_skip.
    + rewrite Hlater; eauto.
    + rewrite <- Hs. apply run_composite_unknown; auto. discriminate.
Qed.

End RoutingFacts.

(** C4, amended.  Let the [config] hook succeed.  When the prefix
    [normalizePath(`/${base}/`)] holds no pattern syntax and every
    registered name is made of characters other than pattern syntax, "#"
    and "/", then for a registered name [p] other than the empty name,
    with served path [f], the paths prefix+p, prefix+p+".html" and
    prefix+p+"?x=1" are routed to [f], and, when the prefix ends with "/",
    the path prefix+unknown is passed through for every name [unknown] of
    such characters that is not registered.  The name map that the hook
    leaves is a plain object; and in every state whose name map is a plain
    object, whatever its pattern and its names, a pathname whose captured
    name is absent from the name map and is not a member of
    [Object.prototype] is passed through. *)
Theorem route_resolves_registered_names :
  forall (host : Host) (options : MpaOptions) (config_base : option string)
         (st st' : state) (r : ConfigResult),
    config options config_base st = (Ok r, st') ->
    (literal_text (route_prefix config_base) ->
     Forall name_text (keys (inputMap st')) ->
     (forall p f,
         own_get (own (inputMap st')) p = Some f -> p <> EmptyString ->
         resolves_to st' (route_prefix config_base ++ p) f
         /\ resolves_to st' (route_prefix config_base ++ p ++ ".html") f
         /\ resolves_to st' (route_prefix config_base ++ p ++ "?x=1") f)
     /\ (forall unknown,
           endsWith (route_prefix config_base) "/" = true ->
           name_text unknown -> ~ In unknown (keys (inputMap st')) ->
           passes_through st' (route_prefix config_base ++ unknown)))
    /\ proto (inputMap st') = None
    /\ (forall (s : state) (pathname key : string),
          proto (inputMap s) = None ->
          inputMapKey s pathname = Some key ->
          own_get (own (inputMap s)) key = None ->
          is_prototype_member key = false ->
          passes_through s pathname).
Proof.
  intros host options config_base st st' r H.
  destruct (config_ok options _ _ _ _ H) as (re & Hre & _ & _ & Hproto & Hvalues).
  cbn [tempInputMap] in Hproto, Hvalues.
  split; [|split; [exact Hproto|]].
  - intros Hprefix Hnames.
    assert (Hc : compiled re
                 = composite (route_prefix config_base) (keys (inputMap st'))).
    { eapply config_compiled; eauto.
      eapply Forall_impl; [|exact Hnames]. apply name_text_literal. }
    split.
    + intros p f Hf Hp.
      assert (Hin : In p (keys (inputMap st'))).
      { apply In_keys. apply own_get_Some_In. eauto. }
      assert (Hpt : truthy p = true) by (destruct p; [contradiction | reflexivity]).
      assert (Hft : truthy f = true) by (eapply Hvalues; eauto).
      split; [|split].
      * apply (resolves_of_key st' _ p f); auto.
        replace (route_prefix config_base ++ p)
          with (route_prefix config_base ++ p ++ EmptyString)
          by now rewrite append_nil_r.
        apply (inputMapKey_registered st' re _ (keys (inputMap st')) p
                 EmptyString EmptyString); auto; try discriminate.
      * apply (resolves_of_key st' _ p f); auto.
        apply (inputMapKey_registered st' re _ (keys (inputMap st')) p
                 ".html" EmptyString); auto.
        -- now intros c t [= <- _].
        -- intros; apply after_name_html.
      * apply (resolves_of_key st' _ p f); auto.
        apply (inputMapKey_registered st' re _ (keys (inputMap st')) p
                 "?x=1" "?"); auto.
        -- now intros c t [= <- _].
        -- intros; apply after_name_query.
    + intros unknown Hend Hu Hnot. apply passes_of_missing.
      apply endsWith_split in Hend as [q Hq]. rewrite Hq in *.
      unfold fileName_of.
      destruct (inputMapKey_unknown st' re q _ unknown Hre Hc Hnames Hu Hnot)
        as [-> | ->]; reflexivity.
  - intros s pathname key Hplain Hkey Hnone Hmember. apply passes_of_missing.
    unfold fileName_of. rewrite Hkey.
    destruct (truthy key); [|reflexivity].
    rewrite JsObjectFacts.get_plain by exact Hplain. now rewrite Hnone, Hmember.
Qed.

Lemma route_resolves_registered_names_witness :
  resolves_to Demo.configured_state "/main" "main.html"
  /\ resolves_to Demo.configured_state "/main.html" "main.html"
  /\ resolves_to Demo.configured_state "/main?x=1" "main.html"
  /\ passes_through Demo.configured_state "/unknown"
  /\ inputMapKey Demo.any_name_state "/unknown" = Some "unknown"
  /\ passes_through Demo.any_name_state "/unknown".
Proof.
  destruct (route_resolves_registered_names Demo.host Demo.rewriting_options
              (Some "/") initial_state Demo.configured_state
              {| optimizeDeps_entries := ["/src/main.ts"];
                 rollup_input := inputMap Demo.configured_state |}
              eq_refl)
    as (Hnamed & _ & Habsent).
  destruct Hnamed as (Hregistered & Hunknown).
  - reflexivity.
  - repeat constructor.
  - destruct (Hregistered "main" "main.html" eq_refl) as (H1 & H2 & H3);
      [discriminate|].
    split; [exact H1|]. split; [exact H2|]. split; [exact H3|].
    split; [|split; [reflexivity|]].
    + apply (Hunknown "unknown"); [reflexivity | reflexivity |].
      simpl. intuition discriminate.
    + apply (Habsent Demo.any_name_state "/unknown" "unknown"); reflexivity.
Defined.

(** *** What the side conditions of the amended round trip exclude *)

(** The pattern is not anchored: a registered name is also found behind
    other path segments. *)
Example route_behind_other_segments :
  fileName_of Demo.configured_state "/x/y/main.html" = Own "main.html".
Proof. reflexivity. Qed.

(** The page with the empty name is registered and never routed: its
    capture is the empty string, which the handler reads as no capture. *)
Example empty_name_is_not_routed :
  let st := snd (config (Demo.options_of [Demo.page EmptyString]) (Some "/")
                   initial_state) in
  get (inputMap st) EmptyString = Own ".html"
  /\ inputMapKey st "/" = Some EmptyString
  /\ fileName_of st "/" = Missing.
Proof. repeat split. Qed.

(** A name that ends like the optional suffix is shadowed by the shorter
    name registered before it. *)
Example suffix_name_is_shadowed :
  let st := snd (config (Demo.options_of [Demo.page "a"; Demo.page "a.html"])
                   (Some "/") initial_state) in
  get (inputMap st) "a.html" = Own "a.html.html"
  /\ fileName_of st "/a.html" = Own "a.html".
Proof. repeat split. Qed.

(** A captured name that is not registered and names a member of
    [Object.prototype] is not passed through: [inputMap[key]] is the
    inherited member, which is truthy. *)
Example inherited_member_is_not_passed_through :
  let st := snd (config (Demo.options_of [Demo.page ".*"]) (Some "/")
                   initial_state) in
  inputMapKey st "/constructor" = Some "constructor"
  /\ own_get (own (inputMap st)) "constructor" = None
  /\ fileName_of st "/constructor" = Inherited.
Proof. repeat split. Qed.

(** Without [base] in the user's configuration the template literal
    yields the text "undefined", which becomes the prefix. *)
Example undefined_base_prefix :
  option_map source
    (rewriteReg (snd (config (Demo.options_of [Demo.page "a"]) None initial_state)))
  = Some "/undefined/(a)(?:\.html?)?(\?|#|$).*".
Proof. reflexivity. Qed.

(** Array-index names come first in the alternation, in numeric order. *)
Example index_names_come_first :
  option_map source
    (rewriteReg (snd (config (Demo.options_of
                                [Demo.page "b"; Demo.page "10"; Demo.page "a";
                                 Demo.page "2"])
                        (Some "/app/") initial_state)))
  = Some "/app/(2|10|b|a)(?:\.html?)?(\?|#|$).*".
Proof. reflexivity. Qed.

(** An invalid pattern makes the hook fail after the table was
    published. *)
Example invalid_pattern_fails_config :
  config (Demo.options_of [Demo.page "c++"]) (Some "/") initial_state
  = (Throw RegExpSyntaxError,
     snd (configInit (Demo.options_of [Demo.page "c++"]) [Demo.page "c++"]
            initial_state)).
Proof. reflexivity. Qed.

(** * Further properties of the plugin *)

(** ** The loop of [configInit] *)

Section LoopFacts.

Context `{host : Host} (options : MpaOptions).
Import JsObjectFacts StringFacts.

(** The loop over a concatenation is the loop over the first list
    followed by the loop over the second. *)
Lemma configInit_loop_app (a b : list Page) :
  forall t,
    configInit_loop (a ++ b)%list t
    = (t1 <- configInit_loop a t ;; configInit_loop b t1).
Proof.
  induction a as [|q a IH]; intros t; [reflexivity|].
  cbn [app configInit_loop]. unfold throwError.
  destruct (startsWith (entryPath q) "/"); [reflexivity|].
  destruct (includes (name q) "/"); [reflexivity|].
  destruct (truthy_opt (entry q) && _); [reflexivity|].
  destruct (truthy_property _); apply IH.
Qed.

Lemma not_invalid_checks (q : Page) :
  ~ invalid_page q ->
  startsWith (entryPath q) "/" = false
  /\ includes (name q) "/" = false
  /\ truthy_opt (entry q)
     && negb (startsWith (default (entry q) EmptyString) "/") = false.
Proof.
  intros H. unfold invalid_page in H. repeat split.
  - destruct (startsWith (entryPath q) "/"); [tauto | reflexivity].
  - destruct (includes (name q) "/"); [tauto | reflexivity].
  - destruct (entry q) as [e|] eqn:He; [|reflexivity]. cbn [truthy_opt default].
    destruct (truthy e) eqn:Ht; [|reflexivity].
    destruct (startsWith e "/") eqn:Hs; [reflexivity|].
    exfalso. apply H. right. right. exists e. auto.
Qed.

(** The loop ends well when no page is invalid. *)
Lemma configInit_loop_valid (ps : list Page) :
  forall t, (forall p, In p ps -> ~ invalid_page p) ->
            exists t', configInit_loop ps t = Ok t'.
Proof.
  induction ps as [|q ps IH]; intros t H; [eexists; reflexivity|].
  cbn [configInit_loop].
  destruct (not_invalid_checks q (H q (or_introl eq_refl))) as (-> & -> & ->).
  destruct (truthy_property _); apply IH; intros p Hp; apply H; now right.
Qed.

(** A loop that ends well met no invalid page. *)
Lemma configInit_loop_all_valid (ps : list Page) (t t' : tables) :
  configInit_loop ps t = Ok t' -> forall p, In p ps -> ~ invalid_page p.
Proof.
  intros H p Hin Hbad.
  destruct (configInit_loop_invalid ps t p Hin Hbad) as [message Hthrow].
  rewrite Hthrow in H. discriminate H.
Qed.

(** A valid page whose name reads as taken is skipped. *)
Lemma configInit_loop_skip (q : Page) (ps : list Page) (t : tables) :
  ~ invalid_page q ->
  truthy_property (get (tempInputMap t) (name q)) = true ->
  configInit_loop (q :: ps) t = configInit_loop ps t.
Proof.
  intros Hq Ht. cbn [configInit_loop].
  destruct (not_invalid_checks q Hq) as (-> & -> & ->). now rewrite Ht.
Qed.

(** Names are only added to the name map, and a name that is in stays
    at its served path. *)
Lemma configInit_loop_keeps (ps : list Page) :
  forall t t' n v,
    configInit_loop ps t = Ok t' -> names_ok t ->
    own_get (own (tempInputMap t)) n = Some v ->
    own_get (own (tempInputMap t')) n = Some v.
Proof.
  induction ps as [|q ps IH]; intros t t' n v H Hok Hn; cbn [configInit_loop] in H.
  - now injection H as <-.
  - passed_checks q H.
    destruct (truthy_property (get (tempInputMap t) (name q))) eqn:E;
      [eauto|].
    apply (IH _ _ _ _ H (register_ok q t Hok)).
    cbn [register tempInputMap]. rewrite own_set_string.
    destruct (name q =? "__proto__")%string; [exact Hn|].
    rewrite own_get_define.
    destruct (String.eqb_spec (name q) n) as [Heq|Hne]; [|exact Hn].
    exfalso. rewrite get_plain in E by apply Hok. rewrite Heq, Hn in E.
    cbn in E. destruct Hok as [_ Hv]. rewrite (Hv _ _ Hn) in E. discriminate.
Qed.

(** The names the loop adds are not members of [Object.prototype]. *)
Lemma configInit_loop_members (ps : list Page) :
  forall t t' n v,
    configInit_loop ps t = Ok t' -> names_ok t ->
    own_get (own (tempInputMap t')) n = Some v ->
    own_get (own (tempInputMap t)) n = Some v \/ is_prototype_member n = false.
Proof.
  induction ps as [|q ps IH]; intros t t' n v H Hok Hn; cbn [configInit_loop] in H.
  - injection H as <-. now left.
  - passed_checks q H.
    destruct (truthy_property (get (tempInputMap t) (name q))) eqn:E;
      [eauto|].
    destruct (IH _ _ _ _ H (register_ok q t Hok) Hn) as [Hreg|Hmem]; [|now right].
    cbn [register tempInputMap] in Hreg. rewrite own_set_string in Hreg.
    destruct (name q =? "__proto__")%string; [now left|].
    rewrite own_get_define in Hreg.
    destruct (String.eqb_spec (name q) n) as [Heq|Hne]; [|now left].
    right. rewrite get_plain in E by apply Hok. rewrite Heq in E.
    destruct (own_get (own (tempInputMap t)) n) as [v0|] eqn:E0.
    + destruct Hok as [_ Hv]. cbn in E. rewrite (Hv _ _ E0) in E. discriminate.
    + destruct (is_prototype_member n); [discriminate E | reflexivity].
Qed.

End LoopFacts.

(** ** What a successful table construction guarantees *)

(** X1. When the scan succeeds, [configInit] ends well exactly when no
    page of the list, explicit or discovered, is invalid: the three checks
    are the only way the loop fails. *)
Theorem configInit_succeeds_iff_valid :
  forall (host : Host) (options : MpaOptions) (ps scanned : list Page) (st : state),
    scanPages (scanOptions options) = Ok scanned ->
    ((exists st', configInit options ps st = (Ok tt, st'))
     <-> forall p, In p (ps ++ scanned)%list -> ~ invalid_page p).
Proof.
  intros host options ps scanned st Hscan. unfold configInit. rewrite Hscan.
  cbn [bind]. split.
  - intros [st' H].
    destruct (configInit_loop _ _) as [t| |] eqn:Hloop; try discriminate H.
    exact (configInit_loop_all_valid _ _ _ Hloop).
  - intros Hvalid.
    destruct (configInit_loop_valid (ps ++ scanned)%list (fresh_tables options) Hvalid)
      as [t Ht].
    rewrite Ht. eauto.
Qed.

Lemma configInit_succeeds_iff_valid_witness :
  (exists st', configInit Demo.scanning_options [Demo.start_page] initial_state
               = (Ok tt, st'))
  <-> forall p,
        In p ([Demo.start_page]
                ++ [Demo.discovered_page "home"; Demo.discovered_page "constructor"])%list ->
        ~ invalid_page p.
Proof.
  apply (configInit_succeeds_iff_valid Demo.host Demo.scanning_options
           [Demo.start_page]
           [Demo.discovered_page "home"; Demo.discovered_page "constructor"]
           initial_state).
  reflexivity.
Defined.

Lemma find_In_some {A} (f : A -> bool) (l : list A) (x : A) :
  In x l -> f x = true -> exists y, find f l = Some y.
Proof.
  induction l as [|a l IH]; intros Hin Hx; [contradiction|].
  simpl. destruct (f a) eqn:E; [eauto|].
  destruct Hin as [->|Hin]; [congruence | auto].
Qed.

(** X2. A valid page whose name an earlier page of the list carries, or
    whose name is that of a member of [Object.prototype], leaves no trace:
    the loop builds the same tables (name map, page map and template set)
    as for the list without it, and fails in the same way if it fails. *)
Theorem shadowed_page_leaves_no_trace :
  forall (host : Host) (options : MpaOptions) (before after : list Page) (p : Page),
    ~ invalid_page p ->
    is_prototype_member (name p) = true
    \/ (exists q, In q before /\ name q = name p) ->
    configInit_loop (before ++ p :: after)%list (fresh_tables options)
    = configInit_loop (before ++ after)%list (fresh_tables options).
Proof.
  intros host options before after p Hvalid Hshadow.
  rewrite !configInit_loop_app.
  destruct (configInit_loop before (fresh_tables options)) as [t1| |] eqn:Hloop;
    try reflexivity.
  cbn [bind]. apply configInit_loop_skip; [exact Hvalid|].
  pose proof (configInit_loop_ok _ _ _ Hloop (fresh_tables_ok options)) as Hok.
  destruct (is_prototype_member (name p)) eqn:Hmem.
  - rewrite JsObjectFacts.get_plain by apply Hok. rewrite Hmem.
    destruct (own_get _ _) as [v|] eqn:Hv; [|reflexivity].
    cbn. eapply Hok; eauto.
  - destruct Hshadow as [Hm|(q & Hq & Hname)]; [discriminate|].
    rewrite (configInit_loop_first_wins _ _ _ (name p) Hloop (fresh_tables_ok options) Hmem).
    cbn [fresh_tables tempInputMap empty own own_get].
    destruct (find_In_some (fun x => (name x =? name p)%string) before q Hq)
      as [y Hy]; [now apply String.eqb_eq|].
    unfold first_named. rewrite Hy. cbn. apply entryPath_truthy.
Qed.

Lemma shadowed_page_leaves_no_trace_witness :
  configInit_loop ([Demo.start_page] ++ Demo.discovered_page "home" :: [Demo.main_page])%list
    (fresh_tables Demo.scanning_options)
  = configInit_loop ([Demo.start_page] ++ [Demo.main_page])%list
      (fresh_tables Demo.scanning_options).
Proof.
  apply (shadowed_page_leaves_no_trace Demo.host Demo.scanning_options
           [Demo.start_page] [Demo.main_page] (Demo.discovered_page "home")).
  - intros [H|[H|(e & He & Ht & Hs)]]; try discriminate.
    injection He as <-. discriminate Hs.
  - right. exists Demo.start_page. split; [now left | reflexivity].
Defined.

(** X3. In a table that [configInit] built, every entry of the name map
    comes from the first page of the list that carries its name: the name
    is not a member of [Object.prototype] and holds no "/", and the served
    path is that page's, is not empty and does not begin with "/". *)
Theorem registered_entry_provenance :
  forall (host : Host) (options : MpaOptions) (ps scanned : list Page)
         (st st' : state) (n f : string),
    scanPages (scanOptions options) = Ok scanned ->
    configInit options ps st = (Ok tt, st') ->
    own_get (own (inputMap st')) n = Some f ->
    is_prototype_member n = false
    /\ includes n "/" = false
    /\ truthy f = true
    /\ startsWith f "/" = false
    /\ exists p, first_named n (ps ++ scanned)%list = Some p
                 /\ name p = n /\ entryPath p = f.
Proof.
  intros host options ps scanned st st' n f Hscan H Hn.
  unfold configInit in H. rewrite Hscan in H. cbn [bind] in H.
  destruct (configInit_loop _ _) as [t| |] eqn:Hloop; try discriminate H.
  injection H as <-. cbn [publish inputMap] in Hn.
  pose proof (configInit_loop_all_valid _ _ _ Hloop) as Hvalid.
  pose proof (fresh_tables_ok options) as Hfresh.
  assert (Hmem : is_prototype_member n = false).
  { destruct (configInit_loop_members _ _ _ _ _ Hloop Hfresh Hn) as [H0|H0];
      [discriminate H0 | exact H0]. }
  pose proof (configInit_loop_first_wins _ _ _ n Hloop Hfresh Hmem) as Hget.
  unfold get in Hget. rewrite Hn in Hget.
  cbn [fresh_tables tempInputMap empty own own_get] in Hget.
  destruct (first_named n (ps ++ scanned)%list) as [p|] eqn:Hfirst;
    [|discriminate Hget].
  injection Hget as ->.
  apply find_some in Hfirst as Hp. destruct Hp as [Hin Hname].
  apply String.eqb_eq in Hname.
  destruct (not_invalid_checks p (Hvalid p Hin)) as (Hs & Hi & _).
  rewrite <- Hname. repeat split; auto.
  - rewrite Hname. exact Hmem.
  - apply entryPath_truthy.
  - exists p. rewrite Hname. auto.
Qed.

Lemma registered_entry_provenance_witness :
  is_prototype_member "home" = false
  /\ includes "home" "/" = false
  /\ truthy "start.html" = true
  /\ startsWith "start.html" "/" = false
  /\ exists p,
       first_named "home"
         ([Demo.start_page]
            ++ [Demo.discovered_page "home"; Demo.discovered_page "constructor"])%list
       = Some p
       /\ name p = "home" /\ entryPath p = "start.html".
Proof.
  apply (registered_entry_provenance Demo.host Demo.scanning_options
           [Demo.start_page]
           [Demo.discovered_page "home"; Demo.discovered_page "constructor"]
           initial_state
           (snd (configInit Demo.scanning_options [Demo.start_page] initial_state)));
    reflexivity.
Defined.

(** ** The two maps and the template set stay in step *)

Section ConsistencyFacts.

Context `{host : Host} (options : MpaOptions).
Import JsObjectFacts.

Lemma get_set_page_same (o : obj Page) (k : string) (v : Page) :
  own_get (own o) "__proto__" = None ->
  get (set o k v) k = Own v.
Proof.
  intros Hp. unfold set, get.
  destruct (String.eqb_spec k "__proto__") as [->|Hk];
    cbn [is_object page_shape own proto].
  - now rewrite Hp.
  - now rewrite own_get_define, String.eqb_refl.
Qed.

Lemma get_set_page_other (o : obj Page) (k f : string) (v x : Page) :
  k <> f -> get o f = Own x -> get (set o k v) f = Own x.
Proof.
  intros Hne. unfold set, get.
  destruct (String.eqb_spec k "__proto__") as [->|Hk];
    cbn [is_object page_shape own proto].
  - destruct (own_get (own o) f); [trivial|].
    apply not_eq_sym, String.eqb_neq in Hne. rewrite Hne.
    destruct (proto o) as [p|].
    + destruct (has_field p f); [discriminate|].
      destruct (is_prototype_member f); discriminate.
    + destruct (is_prototype_member f); discriminate.
  - rewrite own_get_define. apply String.eqb_neq in Hne. now rewrite Hne.
Qed.

Lemma own_set_page_proto (o : obj Page) (k : string) (v : Page) :
  own_get (own o) "__proto__" = None ->
  own_get (own (set o k v)) "__proto__" = None.
Proof.
  intros Hp. unfold set.
  destruct (String.eqb_spec k "__proto__") as [->|Hk];
    cbn [is_object page_shape own]; [exact Hp|].
  rewrite own_get_define. apply String.eqb_neq in Hk. now rewrite Hk.
Qed.

Lemma register_in_step (q : Page) (t : tables) :
  tables_in_step t -> tables_in_step (register q t).
Proof.
  intros [Hp Hstep]. split; cbn [register tempInputMap tempVirtualPageMap].
  - now apply own_set_page_proto.
  - intros n f. rewrite own_set_string.
    assert (Hold : own_get (own (tempInputMap t)) n = Some f ->
                   exists page,
                     get (set (tempVirtualPageMap t) (entryPath q) q) f = Own page
                     /\ entryPath page = f).
    { intros Hn. destruct (Hstep n f Hn) as (page & Hget & Hpath).
      destruct (string_dec (entryPath q) f) as [<-|Hne].
      - exists q. split; [now apply get_set_page_same | reflexivity].
      - exists page. split; [now apply get_set_page_other | exact Hpath]. }
    destruct (name q =? "__proto__")%string; [exact Hold|].
    rewrite own_get_define.
    destruct (name q =? n)%string; [|exact Hold].
    intros [= <-]. exists q. split; [now apply get_set_page_same | reflexivity].
Qed.

Lemma configInit_loop_in_step (ps : list Page) :
  forall t t', configInit_loop ps t = Ok t' -> tables_in_step t -> tables_in_step t'.
Proof.
  induction ps as [|q ps IH]; intros t t' H Hstep; cbn [configInit_loop] in H.
  - now injection H as <-.
  - passed_checks q H.
    destruct (truthy_property _); eauto using register_in_step.
Qed.

Lemma fresh_tables_in_step : tables_in_step (fresh_tables options).
Proof. split; [reflexivity | discriminate]. Qed.

(** *** The template set *)

Lemma set_has_In (l : list string) (x : string) : set_has l x = true <-> In x l.
Proof.
  unfold set_has. rewrite existsb_exists. split.
  - intros (y & Hy & Heq). apply String.eqb_eq in Heq. now subst.
  - intros H. exists x. split; [exact H | apply String.eqb_refl].
Qed.

Lemma set_add_NoDup (l : list string) (x : string) :
  NoDup l -> NoDup (set_add l x).
Proof.
  intros H. unfold set_add. destruct (set_has l x) eqn:E; [exact H|].
  apply NoDup_app; [exact H | repeat constructor; intros [] |].
  intros a Ha [<-|[]]. apply set_has_In in Ha. congruence.
Qed.

Lemma register_templates_from (all : list Page) (q : Page) (t : tables) :
  In q all ->
  templates_from options all (tempTplSet t) -> templates_from options all (tempTplSet (register q t)).
Proof.
  intros Hq (Hnd & Hhd & Hin). cbn [register tempTplSet].
  destruct (template q) as [tpl|] eqn:Htpl; [|now repeat split].
  destruct (truthy tpl) eqn:Ht; [|now repeat split].
  repeat split.
  - now apply set_add_NoDup.
  - unfold set_add. destruct (set_has _ tpl); [exact Hhd|].
    destruct (tempTplSet t); [discriminate Hhd | exact Hhd].
  - intros x Hx. unfold set_add in Hx.
    destruct (set_has _ tpl); [auto|].
    apply in_app_iff in Hx as [Hx|[<-|[]]]; [auto|].
    right. exists q. auto.
Qed.

Lemma configInit_loop_templates_from (all ps : list Page) :
  forall t t',
    (forall p, In p ps -> In p all) ->
    configInit_loop ps t = Ok t' ->
    templates_from options all (tempTplSet t) -> templates_from options all (tempTplSet t').
Proof.
  induction ps as [|q ps IH]; intros t t' Hsub H Hfrom; cbn [configInit_loop] in H.
  - now injection H as <-.
  - passed_checks q H.
    assert (Hsub' : forall p, In p ps -> In p all) by (intros; apply Hsub; now right).
    destruct (truthy_property _); [eauto|].
    apply (IH _ _ Hsub' H). apply register_templates_from; [|exact Hfrom].
    apply Hsub. now left.
Qed.

End ConsistencyFacts.

(** X4. In a table that [configInit] built, the two maps are in step:
    every served path of the name map leads, in the page map, to a page
    that is served at this path; so [transform] never answers [null] for a
    file name that the middleware took from the name map. *)
Theorem configInit_tables_in_step :
  forall (host : Host) (options : MpaOptions) (ps : list Page) (st st' : state),
    configInit options ps st = (Ok tt, st') ->
    table_consistent st'
    /\ forall n f fileContent,
         own_get (own (inputMap st')) n = Some f ->
         transform st' fileContent f <> Ok None.
Proof.
  intros host options ps st st' H. published H t Hloop.
  assert (Hcons : table_consistent (publish t st)).
  { intros n f Hn. cbn [publish inputMap virtualPageMap] in *.
    eapply (configInit_loop_in_step _ _ _ Hloop (fresh_tables_in_step options)).
    exact Hn. }
  split; [exact Hcons|].
  intros n f fileContent Hn Hnull.
  destruct (Hcons n f Hn) as (page & Hget & _).
  unfold transform in Hnull. rewrite Hget in Hnull. unfold render in Hnull.
  destruct (resolvedConfig (publish t st)); [|discriminate Hnull].
  destruct (ejs_render _ _ _ _); discriminate Hnull.
Qed.

Lemma configInit_tables_in_step_witness :
  table_consistent Demo.ejs_state
  /\ forall n f fileContent,
       own_get (own (inputMap Demo.ejs_state)) n = Some f ->
       transform Demo.ejs_state fileContent f <> Ok None.
Proof.
  apply (configInit_tables_in_step Demo.host (Demo.options_of Demo.ejs_pages)
           Demo.ejs_pages (configResolved Demo.resolved initial_state)).
  reflexivity.
Defined.

(** X5. The template set that [configInit] publishes holds no member
    twice and starts with the default template, and each of its members
    is the default template or the template of a page of the list. *)
Theorem tplSet_members :
  forall (host : Host) (options : MpaOptions) (ps scanned : list Page)
         (st st' : state),
    scanPages (scanOptions options) = Ok scanned ->
    configInit options ps st = (Ok tt, st') ->
    NoDup (tplSet st')
    /\ hd_error (tplSet st') = Some (default_template options)
    /\ forall x, set_has (tplSet st') x = true ->
         x = default_template options
         \/ exists p, In p (ps ++ scanned)%list
                      /\ template p = Some x /\ truthy x = true.
Proof.
  intros host options ps scanned st st' Hscan H.
  unfold configInit in H. rewrite Hscan in H. cbn [bind] in H.
  destruct (configInit_loop _ _) as [t| |] eqn:Hloop; try discriminate H.
  injection H as <-. cbn [publish tplSet].
  destruct (configInit_loop_templates_from options (ps ++ scanned)%list
              (ps ++ scanned)%list _ _ (fun p Hp => Hp) Hloop)
    as (Hnd & Hhd & Hin).
  - repeat split.
    + repeat constructor. intros [].
    + intros x [<-|[]]. now left.
  - repeat split; auto. intros x Hx. apply Hin. now apply set_has_In.
Qed.

Lemma tplSet_members_witness :
  NoDup (tplSet Demo.ejs_state)
  /\ hd_error (tplSet Demo.ejs_state) = Some "index.html"
  /\ forall x, set_has (tplSet Demo.ejs_state) x = true ->
       x = "index.html"
       \/ exists p, In p (Demo.ejs_pages ++ [])%list
                    /\ template p = Some x /\ truthy x = true.
Proof.
  apply (tplSet_members Demo.host (Demo.options_of Demo.ejs_pages) Demo.ejs_pages []
           (configResolved Demo.resolved initial_state) Demo.ejs_state);
    reflexivity.
Defined.

(** X6. In a table that [configInit] built, [load] reads, for the id of a
    registered page, the page's own template when it is set and not empty
    and the default template otherwise, and the file it reads is in the
    template set published with the page map.  For an id that names a
    member of [Object.prototype] it reads the default template, and for an
    id that the page map does not know it answers [null]. *)
Theorem load_reads_watched_template :
  forall (host : Host) (options : MpaOptions) (ps : list Page)
         (st st' : state) (id : string),
    configInit options ps st = (Ok tt, st') ->
    (forall page,
        get (virtualPageMap st') id = Own page ->
        (forall tpl,
            template page = Some tpl -> truthy tpl = true ->
            set_has (tplSet st') tpl = true
            /\ load options st' id = (html <- fs_readFileSync tpl ;; Ok (Some html)))
        /\ (truthy_opt (template page) = false ->
            set_has (tplSet st') (default_template options) = true
            /\ load options st' id
               = (html <- fs_readFileSync (default_template options) ;;
                  Ok (Some html))))
    /\ (get (virtualPageMap st') id = Inherited ->
        set_has (tplSet st') (default_template options) = true
        /\ load options st' id
           = (html <- fs_readFileSync (default_template options) ;; Ok (Some html)))
    /\ (get (virtualPageMap st') id = Missing -> load options st' id = Ok None).
Proof.
  intros host options ps st st' id H. published H t Hloop.
  destruct (configInit_loop_templates _ _ _ Hloop) as [Hok Hkeep].
  assert (Hdefault : set_has (tempTplSet t) (default_template options) = true).
  { apply Hkeep. cbn. now rewrite String.eqb_refl. }
  unfold load. cbn [publish virtualPageMap tplSet].
  split; [|split].
  - intros page Hget. rewrite Hget. unfold page_template. split.
    + intros tpl Htpl Ht. rewrite Htpl, Ht. split; [|reflexivity].
      eapply (Hok (fresh_templates_ok options)); eauto.
    + intros Hnone. split; [exact Hdefault|].
      destruct (template page) as [tpl|]; [|reflexivity].
      cbn [truthy_opt] in Hnone. now rewrite Hnone.
  - intros Hget. rewrite Hget. now split.
  - intros Hget. now rewrite Hget.
Qed.

Lemma load_reads_watched_template_witness :
  (set_has (tplSet Demo.ejs_state) "layout.ejs" = true
   /\ load (Demo.options_of Demo.ejs_pages) Demo.ejs_state "a.html"
      = (html <- fs_readFileSync "layout.ejs" ;; Ok (Some html)))
  /\ load (Demo.options_of Demo.ejs_pages) Demo.ejs_state "c.html" = Ok None.
Proof.
  split.
  - destruct (load_reads_watched_template Demo.host (Demo.options_of Demo.ejs_pages)
                Demo.ejs_pages (configResolved Demo.resolved initial_state)
                Demo.ejs_state "a.html" eq_refl)
      as (Hown & _ & _).
    destruct (Hown {| name := "a"; filename := None; entry := None;
                      template := Some "layout.ejs"; data := None |} eq_refl)
      as (Hset & _).
    apply (Hset "layout.ejs"); reflexivity.
  - destruct (load_reads_watched_template Demo.host (Demo.options_of Demo.ejs_pages)
                Demo.ejs_pages (configResolved Demo.resolved initial_state)
                Demo.ejs_state "c.html" eq_refl)
      as (_ & _ & Hmissing).
    apply Hmissing. reflexivity.
Defined.

Section HookFacts.

Context `{host : Host} (options : MpaOptions).

Lemma resolveId_none (st : state) (id : string) :
  resolveId st id true = Ok None <-> get (virtualPageMap st) id = Missing.
Proof.
  unfold resolveId.
  destruct (get (virtualPageMap st) id); split; intros H;
    reflexivity || discriminate H.
Qed.

Lemma load_none (st : state) (id : string) :
  load options st id = Ok None <-> get (virtualPageMap st) id = Missing.
Proof.
  unfold load.
  destruct (get (virtualPageMap st) id) as [page| | |]; split; intros H;
    try reflexivity; try discriminate H.
  - destruct (fs_readFileSync _); discriminate H.
  - destruct (fs_readFileSync _); discriminate H.
Qed.

Lemma transform_none (st : state) (fileContent id : string) :
  transform st fileContent id = Ok None <-> get (virtualPageMap st) id = Missing.
Proof.
  unfold transform, render.
  destruct (get (virtualPageMap st) id) as [page| | |]; split; intros H;
    try reflexivity; try discriminate H.
  - destruct (resolvedConfig st); [|discriminate H].
    destruct (ejs_render _ _ _ _); discriminate H.
  - destruct (resolvedConfig st); [|discriminate H].
    destruct (ejs_render _ _ _ _); discriminate H.
Qed.

End HookFacts.

(** X7. The three hooks agree on which ids are virtual pages:
    [resolveId] leaves an entry id alone exactly when [load] answers
    [null], and exactly when [transform] answers [null]; an id that
    [resolveId] claims is returned as it is, and an id that is not an entry
    is never claimed. *)
Theorem hooks_agree_on_pages :
  forall (host : Host) (options : MpaOptions) (st : state)
         (id fileContent : string),
    (resolveId st id true = Ok None <-> load options st id = Ok None)
    /\ (load options st id = Ok None <-> transform st fileContent id = Ok None)
    /\ (forall r, resolveId st id true = Ok (Some r) -> r = id)
    /\ resolveId st id false = Ok None.
Proof.
  intros host options st id fileContent.
  split; [|split; [|split]].
  - rewrite resolveId_none, load_none. reflexivity.
  - rewrite load_none, transform_none. reflexivity.
  - unfold resolveId. intros r H.
    destruct (get (virtualPageMap st) id); try discriminate H;
      now injection H as <-.
  - reflexivity.
Qed.

Lemma hooks_agree_on_pages_witness :
  resolveId Demo.served_state "main.html" true = Ok (Some "main.html")
  /\ (resolveId Demo.served_state "other.html" true = Ok None
      <-> load (Demo.options_of [Demo.main_page]) Demo.served_state "other.html"
          = Ok None).
Proof.
  split; [reflexivity|].
  apply (proj1 (hooks_agree_on_pages Demo.host (Demo.options_of [Demo.main_page])
                  Demo.served_state "other.html" EmptyString)).
Defined.

(** ** Page discovery *)

Section ScanFacts.

Context `{host : Host}.

Lemma scan_entries_ok (so : ScanOptions) (entryDir : string) (names : list string) :
  forall found,
    scan_entries so entryDir names = Ok found ->
    found = map (discovered so entryDir)
              (filter (fun n => is_dir (path_join [entryDir; n])) names).
Proof.
  induction names as [|n names IH]; intros found H; cbn [scan_entries] in H.
  - now injection H as <-.
  - cbn [filter]. unfold is_dir at 1.
    destruct (fs_isDirectory (path_join [entryDir; n])) as [b| |];
      cbn [bind] in H; try discriminate H.
    destruct b; cbn [negb] in H.
    + destruct (scan_entries so entryDir names) as [more| |];
        cbn [bind] in H; try discriminate H.
      injection H as <-. cbn [map]. now rewrite <- (IH more eq_refl).
    + now apply IH.
Qed.

Lemma scan_dirs_ok (so : ScanOptions) (dirs : list string) :
  forall found,
    scan_dirs so dirs = Ok found ->
    found = flat_map
              (fun d => map (discovered so d)
                          (filter (fun n => is_dir (path_join [d; n])) (listing d)))
              dirs.
Proof.
  induction dirs as [|d dirs IH]; intros found H; cbn [scan_dirs] in H.
  - now injection H as <-.
  - cbn [flat_map]. unfold listing at 1.
    destruct (fs_readdirSync d) as [names| |]; cbn [bind] in H; try discriminate H.
    destruct (scan_entries so d names) as [here| |] eqn:Hhere;
      cbn [bind] in H; try discriminate H.
    destruct (scan_dirs so dirs) as [more| |]; cbn [bind] in H; try discriminate H.
    injection H as <-.
    now rewrite (scan_entries_ok _ _ _ _ Hhere), <- (IH more eq_refl).
Qed.

End ScanFacts.

(** X8. When [scanPages] returns, it returns one page for each directory
    among the entries of each scanned directory, in the order of
    [scanDirs] (empty names dropped) and of the listings; entries that are
    not directories give no page.  The page is named like the directory,
    has the served path that the [filename] function gives, if any, the
    entry [path.join('/', dir, entryFile)] when [entryFile] is set, and
    neither template nor data. *)
Theorem scanPages_lists_directories :
  forall (host : Host) (so : ScanOptions) (found : list Page),
    scanPages (Some so) = Ok found ->
    found = flat_map
              (fun d => map (discovered so d)
                          (filter (fun n => is_dir (path_join [d; n])) (listing d)))
              (filter truthy (scanDirs so))
    /\ forall p, In p found ->
         template p = None /\ data p = None
         /\ exists d, In d (scanDirs so) /\ truthy d = true
                      /\ In (name p) (listing d)
                      /\ fs_isDirectory (path_join [d; name p]) = Ok true.
Proof.
  intros host so found H. unfold scanPages in H.
  pose proof (scan_dirs_ok so _ _ H) as Hfound. split; [exact Hfound|].
  intros p Hp. rewrite Hfound in Hp.
  apply in_flat_map in Hp as (d & Hd & Hp).
  apply in_map_iff in Hp as (n & <- & Hn).
  apply filter_In in Hd as [Hd Htruthy].
  apply filter_In in Hn as [Hn Hdir].
  repeat split. exists d. repeat split; auto.
  cbn [discovered name]. unfold is_dir in Hdir.
  destruct (fs_isDirectory (path_join [d; n])) as [b| |]; try discriminate Hdir.
  now subst b.
Qed.

Lemma scanPages_lists_directories_witness :
  [Demo.discovered_page "home"; Demo.discovered_page "constructor"]
  = flat_map
      (fun d => map (discovered Demo.scan_options d)
                  (filter (fun n => is_dir (path_join [d; n])) (listing d)))
      (filter truthy (scanDirs Demo.scan_options))
  /\ forall p, In p [Demo.discovered_page "home"; Demo.discovered_page "constructor"] ->
       template p = None /\ data p = None
       /\ exists d, In d (scanDirs Demo.scan_options) /\ truthy d = true
                    /\ In (name p) (listing d)
                    /\ fs_isDirectory (path_join [d; name p]) = Ok true.
Proof.
  apply (scanPages_lists_directories Demo.host Demo.scan_options).
  reflexivity.
Defined.

(** ** The names of the alternation *)

Section KeysNoDup.

Import KeysFacts JsObjectFacts.

Lemma NoDup_insert_index (k : string) (n : N) (l : list (string * N)) :
  ~ In k (map fst l) -> NoDup (map fst l) -> NoDup (map fst (insert_index k n l)).
Proof.
  induction l as [|[k' n'] l IH]; intros Hk Hnd; cbn [insert_index].
  - repeat constructor. intros [].
  - destruct (n <=? n')%N; cbn [map fst].
    + constructor; assumption.
    + cbn [map fst] in Hk, Hnd. apply NoDup_cons_iff in Hnd as [Hk' Hnd].
      constructor.
      * rewrite In_insert_index. intros [->|H]; [apply Hk; now left | contradiction].
      * apply IH; [|exact Hnd]. intros H. apply Hk. now right.
Qed.

Lemma NoDup_index_keys (ks : list string) :
  NoDup ks -> NoDup (map fst (index_keys ks)).
Proof.
  induction ks as [|k ks IH]; intros Hnd; cbn [index_keys]; [constructor|].
  apply NoDup_cons_iff in Hnd as [Hk Hnd].
  destruct (array_index k); [|auto].
  apply NoDup_insert_index; [|auto].
  rewrite In_index_keys. tauto.
Qed.

(** [Object.keys] lists no key twice. *)
Lemma NoDup_keys {V} (o : obj V) : NoDup (map fst (own o)) -> NoDup (keys o).
Proof.
  intros Hnd. unfold keys. apply NoDup_app.
  - now apply NoDup_index_keys.
  - now apply NoDup_filter.
  - intros a Ha Hb. apply In_index_keys in Ha as [_ Ha].
    apply filter_In in Hb as [_ Hb]. rewrite Ha in Hb. discriminate.
Qed.

Lemma NoDup_define {V} (l : list (string * V)) (k : string) (v : V) :
  NoDup (map fst l) -> NoDup (map fst (define l k v)).
Proof.
  intros Hnd. rewrite define_keys.
  destruct (existsb (String.eqb k) (map fst l)) eqn:E; [exact Hnd|].
  apply NoDup_app; [exact Hnd | repeat constructor; intros [] |].
  intros a Ha [Heq|[]]. subst a.
  assert (existsb (String.eqb k) (map fst l) = true); [|congruence].
  apply existsb_exists. exists k. split; [exact Ha | apply String.eqb_refl].
Qed.

End KeysNoDup.

Section NamesNoDup.

Context `{host : Host}.
Import JsObjectFacts.

Lemma configInit_loop_NoDup (ps : list Page) :
  forall t t',
    configInit_loop ps t = Ok t' ->
    NoDup (map fst (own (tempInputMap t))) ->
    NoDup (map fst (own (tempInputMap t'))).
Proof.
  induction ps as [|q ps IH]; intros t t' H Hnd; cbn [configInit_loop] in H.
  - now injection H as <-.
  - passed_checks q H.
    destruct (truthy_property _); [eauto|].
    apply (IH _ _ H). cbn [register tempInputMap]. rewrite own_set_string.
    destruct (name q =? "__proto__")%string; [exact Hnd|].
    now apply NoDup_define.
Qed.

End NamesNoDup.

(** X9. The alternation of the composite pattern names each registered
    page once: [Object.keys] of the name map that [configInit] published
    holds no name twice, and it holds exactly the names the map has. *)
Theorem registered_names_distinct :
  forall (host : Host) (options : MpaOptions) (ps : list Page) (st st' : state),
    configInit options ps st = (Ok tt, st') ->
    NoDup (keys (inputMap st'))
    /\ forall n, In n (keys (inputMap st'))
                 <-> exists f, get (inputMap st') n = Own f.
Proof.
  intros host options ps st st' H. published H t Hloop.
  cbn [publish inputMap]. split.
  - apply NoDup_keys.
    apply (configInit_loop_NoDup _ _ _ Hloop). constructor.
  - intros n. rewrite KeysFacts.In_keys, KeysFacts.own_get_Some_In.
    pose proof (configInit_loop_ok _ _ _ Hloop (fresh_tables_ok options)) as [Hp _].
    rewrite JsObjectFacts.get_plain by exact Hp.
    split; intros [f Hf].
    + exists f. now rewrite Hf.
    + destruct (own_get _ n) as [v|]; [eauto|].
      destruct (is_prototype_member n); discriminate Hf.
Qed.

Lemma registered_names_distinct_witness :
  NoDup (keys (inputMap Demo.ejs_state))
  /\ forall n, In n (keys (inputMap Demo.ejs_state))
               <-> exists f, get (inputMap Demo.ejs_state) n = Own f.
Proof.
  apply (registered_names_distinct Demo.host (Demo.options_of Demo.ejs_pages)
           Demo.ejs_pages (configResolved Demo.resolved initial_state)).
  reflexivity.
Defined.

(** ** What the middleware does, and to which requests *)

(** X10. The handler only acts on eligible requests, and only through the
    tables: when it rewrites, the target is what [evaluateRewriteRule]
    gives for the first rule of [rewrites] whose test passes and for what
    [match] gives on that rule; when it serves, no rule passed its test
    (or there are no rules) or [match] on the rule found gave [null], the
    file name is what the name map holds for the name that the composite
    pattern captured, and the response is "text/html" with status 200. *)
Theorem middleware_acts_through_tables :
  forall (host : Host) (options : MpaOptions) (st : state) (h : regexps)
         (req : Request) (out : outcome),
    fst (middleware options st h req) = Ok out ->
    out <> PassThrough ->
    eligible req
    /\ exists original pathname,
         originalUrl req = Some original
         /\ url_pathname (url_parse original) = Some pathname
         /\ truthy pathname = true
         /\ match out with
            | PassThrough => False
            | Rewritten target =>
                exists rules rule h1 match_,
                  rewrites options = Some rules
                  /\ find_rewrite rules pathname h = (Ok (Some rule), h1)
                  /\ fst (string_match pathname (h1 (from rule))) = Some match_
                  /\ evaluateRewriteRule (url_parse original) match_ (to rule)
                     = Ok target
            | Served fileName res =>
                (forall rules,
                    rewrites options = Some rules ->
                    (exists h1, find_rewrite rules pathname h = (Ok None, h1))
                    \/ (exists rule h1,
                           find_rewrite rules pathname h = (Ok (Some rule), h1)
                           /\ fst (string_match pathname (h1 (from rule))) = None))
                /\ (exists key, inputMapKey st pathname = Some key
                                /\ truthy key = true
                                /\ get (inputMap st) key = Own fileName)
                /\ truthy fileName = true
                /\ content_type res = "text/html"
                /\ statusCode res = 200
            end.
Proof.
  intros host options st h req out H Hout. unfold middleware in H.
  destruct (method req) as [m|] eqn:Hm;
    [|cbn [fst] in H; injection H as <-; contradiction].
  destruct (accept_header req) as [accept|] eqn:Ha;
    [|cbn [fst] in H; injection H as <-; contradiction].
  destruct (originalUrl req) as [original|] eqn:Ho;
    [|cbn [fst] in H; injection H as <-; contradiction].
  destruct (url req) as [u|] eqn:Hu;
    [|cbn [fst] in H; injection H as <-; contradiction].
  destruct (truthy m) eqn:Hmt; cbn [negb orb] in H;
    [|cbn [fst] in H; injection H as <-; contradiction].
  destruct (existsb (String.eqb m) ["GET"; "HEAD"]) eqn:Hget; cbn [negb orb] in H;
    [|cbn [fst] in H; injection H as <-; contradiction].
  destruct (truthy accept) eqn:Hat; cbn [negb orb] in H;
    [|cbn [fst] in H; injection H as <-; contradiction].
  destruct (truthy original) eqn:Hot; cbn [negb orb] in H;
    [|cbn [fst] in H; injection H as <-; contradiction].
  destruct (truthy u) eqn:Hut; cbn [negb orb] in H;
    [|cbn [fst] in H; injection H as <-; contradiction].
  destruct (accepts_html accept) eqn:Hhtml; cbn [negb] in H;
    [|cbn [fst] in H; injection H as <-; contradiction].
  destruct (url_pathname (url_parse original)) as [pathname|] eqn:Hp;
    [|cbn [fst] in H; injection H as <-; contradiction].
  destruct (truthy pathname) eqn:Hpt; cbn [negb] in H;
    [|cbn [fst] in H; injection H as <-; contradiction].
  split.
  - exists m, accept, original, u. repeat split; auto.
    cbn in Hget.
    destruct (String.eqb_spec m "GET"); [now left|].
    destruct (String.eqb_spec m "HEAD"); [now right | discriminate Hget].
  - exists original, pathname. repeat split; auto.
    assert (Hroute :
              virtual_page_routing st u original pathname = Ok out ->
              match out with
              | PassThrough => False
              | Rewritten _ => False
              | Served fileName res =>
                  (exists key, inputMapKey st pathname = Some key
                               /\ truthy key = true
                               /\ get (inputMap st) key = Own fileName)
                  /\ truthy fileName = true
                  /\ content_type res = "text/html"
                  /\ statusCode res = 200
              end).
    { unfold virtual_page_routing, fileName_of. intros Hr.
      destruct (inputMapKey st pathname) as [key|];
        [|injection Hr as <-; contradiction].
      destruct (truthy key) eqn:Hkt; [|injection Hr as <-; contradiction].
      destruct (get (inputMap st) key) as [f| | |] eqn:Hf; try discriminate Hr;
        [|injection Hr as <-; contradiction].
      destruct (truthy f) eqn:Hft; [|injection Hr as <-; contradiction].
      unfold serve in Hr.
      destruct (pluginContainer_load f) as [l| |]; cbn [bind] in Hr;
        try discriminate Hr.
      destruct (load_falsy l); [discriminate Hr|].
      destruct (transform st _ f) as [tr| |]; cbn [bind] in Hr; try discriminate Hr.
      destruct (transformIndexHtml _ _ _) as [html| |]; cbn [bind] in Hr;
        try discriminate Hr.
      injection Hr as <-. repeat split; eauto. }
    destruct (rewrites options) as [[|r0 rules]|] eqn:Hrules.
    + cbn [fst] in H. apply Hroute in H. destruct out; try contradiction.
      split; [|exact H]. intros rules [= <-]. left. now exists h.
    + destruct (find_rewrite (r0 :: rules) pathname h) as [[[rule|]|e|] h1] eqn:Hfind;
        cbn [fst] in H; try discriminate H.
      * destruct (string_match pathname (h1 (from rule))) as [[match_|] re] eqn:Hmatch;
          cbn [fst] in H.
        -- destruct (evaluateRewriteRule _ match_ (to rule)) as [target| |] eqn:He;
             cbn [bind] in H; try discriminate H.
           injection H as <-. exists (r0 :: rules), rule, h1, match_.
           rewrite Hmatch. auto.
        -- apply Hroute in H. destruct out; try contradiction.
           split; [|exact H]. intros rules' [= <-]. right.
           exists rule, h1. rewrite Hmatch. auto.
      * apply Hroute in H. destruct out; try contradiction.
        split; [|exact H]. intros rules' [= <-]. left. now exists h1.
    + cbn [fst] in H. apply Hroute in H. destruct out; try contradiction.
      split; [|exact H]. intros rules Hr. discriminate Hr.
Qed.

Lemma middleware_acts_through_tables_witness :
  eligible Demo.main_request
  /\ exists original pathname,
       originalUrl Demo.main_request = Some original
       /\ url_pathname (url_parse original) = Some pathname
       /\ truthy pathname = true
       /\ exists rules rule h1 match_,
            rewrites Demo.rewriting_options = Some rules
            /\ find_rewrite rules pathname Demo.rule_regexps = (Ok (Some rule), h1)
            /\ fst (string_match pathname (h1 (from rule))) = Some match_
            /\ evaluateRewriteRule (url_parse original) match_ (to rule)
               = Ok "/landing.html".
Proof.
  apply (middleware_acts_through_tables Demo.host Demo.rewriting_options
           Demo.routed_state Demo.rule_regexps Demo.main_request
           (Rewritten "/landing.html")).
  - reflexivity.
  - discriminate.
Defined.

(** X11. [configInit], which the watch handler receives as [reloadPages],
    never rebuilds the composite pattern and changes nothing when it
    fails: after any call the pattern and the resolved configuration are
    those of before, so the name captured from a pathname is the same, and
    a pathname that the pattern of the [config] hook does not match is
    still passed through, whatever pages the call registered. *)
Theorem configInit_keeps_pattern :
  forall (host : Host) (options : MpaOptions) (ps : list Page)
         (st st' : state) (r : result unit),
    configInit options ps st = (r, st') ->
    rewriteReg st' = rewriteReg st
    /\ resolvedConfig st' = resolvedConfig st
    /\ (r <> Ok tt -> st' = st)
    /\ (forall pathname, inputMapKey st' pathname = inputMapKey st pathname)
    /\ (forall pathname, inputMapKey st pathname = None ->
                         passes_through st' pathname).
Proof.
  intros host options ps st st' r H.
  assert (Hkeep : rewriteReg st' = rewriteReg st
                  /\ resolvedConfig st' = resolvedConfig st
                  /\ (r <> Ok tt -> st' = st)).
  { unfold configInit in H.
    destruct (scanned <- scanPages (scanOptions options) ;;
              configInit_loop (ps ++ scanned) (fresh_tables options))
      as [t| |]; injection H as <- <-; repeat split; try reflexivity.
    intros Hr. now destruct Hr. }
  destruct Hkeep as (Hre & Hrc & Hfail).
  assert (Hkey : forall pathname, inputMapKey st' pathname = inputMapKey st pathname).
  { intros pathname. unfold inputMapKey. now rewrite Hre. }
  split; [exact Hre|]. split; [exact Hrc|]. split; [exact Hfail|].
  split; [exact Hkey|].
  intros pathname Hnone. split.
  - unfold fileName_of. now rewrite Hkey, Hnone.
  - intros u original. unfold virtual_page_routing, fileName_of.
    now rewrite Hkey, Hnone.
Qed.

Lemma configInit_keeps_pattern_witness :
  inputMapKey (snd (configInit Demo.rewriting_options
                      [Demo.main_page; Demo.page "added"] Demo.routed_state))
    "/added"
  = inputMapKey Demo.routed_state "/added"
  /\ passes_through
       (snd (configInit Demo.rewriting_options
               [Demo.main_page; Demo.page "added"] Demo.routed_state))
       "/added"
  /\ get (inputMap (snd (configInit Demo.rewriting_options
                           [Demo.main_page; Demo.page "added"] Demo.routed_state)))
       "added"
     = Own "added.html".
Proof.
  destruct (configInit_keeps_pattern Demo.host Demo.rewriting_options
              [Demo.main_page; Demo.page "added"] Demo.routed_state
              (snd (configInit Demo.rewriting_options
                      [Demo.main_page; Demo.page "added"] Demo.routed_state))
              (Ok tt) eq_refl)
    as (_ & _ & _ & Hkey & Hpass).
  split; [apply Hkey|]. split; [|reflexivity].
  apply Hpass. reflexivity.
Defined.

(** ** Patterns with [.*] *)

Module StarFacts.
Import StringFacts RegExpFacts RouteFacts.

Lemma run_star_dot (total : nat) (s : string) (caps : captures) (k : cont) :
  run total (Repeat Star true Dot) s caps k
  = star_dot total k (String.length s) s caps.
Proof.
  cbn [run]. generalize (String.length s) as fuel. revert s caps.
  intros s caps fuel. revert s caps.
  induction fuel as [|fuel IH]; intros s caps; [reflexivity|].
  cbn [star_dot run orelse]. destruct s as [|c s]; [reflexivity|].
  destruct (is_line_terminator c); [reflexivity|].
  destruct (String.length s <? String.length (String c s))%nat; [|reflexivity].
  now rewrite <- IH.
Qed.

(** [.*] may match nothing: if what follows succeeds here, the whole
    succeeds. *)
Lemma star_dot_zero (total : nat) (k : cont) (fuel : nat) (s : string)
      (caps : captures) :
  k s caps <> None -> star_dot total k fuel s caps <> None.
Proof.
  intros H. destruct fuel as [|fuel]; [exact H|].
  cbn [star_dot]. destruct (run total Dot s _ _); [discriminate | exact H].
Qed.

(** Where [.*] succeeds, what follows succeeded at some later offset,
    with the captures it was entered with. *)
Lemma star_dot_inv (total : nat) (k : cont) (fuel : nat) :
  forall s caps y,
    star_dot total k fuel s caps = Some y ->
    exists i, k (drop i s) caps = Some y.
Proof.
  induction fuel as [|fuel IH]; intros s caps y H; cbn [star_dot] in H.
  - exists 0. now rewrite drop_0.
  - rewrite reset_captures_nil in H.
    destruct (run total Dot s caps _) as [z|] eqn:E; cbn [orelse] in H.
    + injection H as ->. cbn [run] in E.
      destruct s as [|c s]; [discriminate E|].
      destruct (is_line_terminator c); [discriminate E|].
      destruct (String.length s <? String.length (String c s))%nat;
        [|discriminate E].
      destruct (IH _ _ _ E) as [i Hi]. now exists (S i).
    + exists 0. now rewrite drop_0.
Qed.

Lemma includes_drop (s w : string) :
  includes s w = true -> exists i, String.prefix w (drop i s) = true.
Proof.
  induction s as [|c s IH]; intros H.
  - exists 0. simpl in H. now rewrite orb_false_r in H.
  - change (includes (String c s) w)
      with (String.prefix w (String c s) || includes s w) in H.
    apply orb_true_iff in H as [H|H].
    + exists 0. exact H.
    + destruct (IH H) as [i Hi]. now exists (S i).
Qed.

Lemma html_accept_parsed : parse html_accept_source = Parsed html_accept.
Proof. reflexivity. Qed.

Lemma run_seq (total : nat) (r1 r2 : regex) (s : string) (caps : captures) (k : cont) :
  run total (Seq r1 r2) s caps k
  = run total r1 s caps (fun s' caps' => run total r2 s' caps' k).
Proof. reflexivity. Qed.

Lemma run_group (total n : nat) (r : regex) (s : string) (caps : captures) (k : cont) :
  run total (Group (Some n) r) s caps k
  = run total r s caps (fun s' caps' => k s' (set_capture n (consumed s s') caps')).
Proof. reflexivity. Qed.

Lemma run_alt (total : nat) (r1 r2 : regex) (s : string) (caps : captures) (k : cont) :
  run total (Alt r1 r2) s caps k
  = orelse (run total r1 s caps k) (run total r2 s caps k).
Proof. reflexivity. Qed.

Lemma run_empty (total : nat) (s : string) (caps : captures) (k : cont) :
  run total Empty s caps k = k s caps.
Proof. reflexivity. Qed.

(** A final [.*] always succeeds. *)
Lemma run_final_star (total : nat) (s : string) (caps : captures) :
  run total (Seq (Repeat Star true Dot) Empty) s caps accept <> None.
Proof.
  rewrite run_seq, run_star_dot. apply star_dot_zero.
  rewrite run_empty. discriminate.
Qed.

(** Where a final [.*] succeeds, the captures are those it was entered
    with. *)
Lemma run_final_star_inv (total : nat) (s : string) (caps : captures)
      (y : string * captures) :
  run total (Seq (Repeat Star true Dot) Empty) s caps accept = Some y ->
  snd y = caps.
Proof.
  rewrite run_seq, run_star_dot. intros H.
  apply star_dot_inv in H as [i Hi]. rewrite run_empty in Hi.
  now injection Hi as <-.
Qed.

Lemma html_accept_at (total : nat) (s : string) :
  String.prefix "text/html" s = true
  \/ String.prefix "application/xhtml+xml" s = true ->
  run total html_accept s [] accept <> None.
Proof.
  intros H. unfold html_accept. cbn [seq_of].
  rewrite run_seq, run_star_dot. apply star_dot_zero.
  rewrite run_seq, run_group, run_alt. unfold literal. rewrite !run_lits_only.
  destruct (String.prefix "text/html" s).
  - destruct (run total _ _ _ accept) eqn:E; [discriminate|].
    now apply run_final_star in E.
  - cbn [orelse]. destruct H as [H| ->]; [discriminate H|]. apply run_final_star.
Qed.

Lemma html_accept_inv (total : nat) (s : string) :
  run total html_accept s [] accept <> None ->
  exists i, String.prefix "text/html" (drop i s) = true
            \/ String.prefix "application/xhtml+xml" (drop i s) = true.
Proof.
  intros H. unfold html_accept in H. cbn [seq_of] in H.
  rewrite run_seq, run_star_dot in H.
  destruct (star_dot _ _ _ _ _) as [y|] eqn:E; [|contradiction].
  apply star_dot_inv in E as [i Hi]. exists i.
  rewrite run_seq, run_group, run_alt in Hi. unfold literal in Hi.
  rewrite !run_lits_only in Hi.
  destruct (String.prefix "text/html" (drop i s)); [now left|].
  cbn [orelse] in Hi.
  destruct (String.prefix "application/xhtml+xml" (drop i s));
    [now right | discriminate Hi].
Qed.

End StarFacts.

(** X12. The [accept] test of the handler passes exactly when the header
    holds the text "text/html" or the text "application/xhtml+xml",
    anywhere and in this spelling. *)
Theorem accepts_html_iff_includes :
  forall accept : string,
    accepts_html accept
    = includes accept "text/html" || includes accept "application/xhtml+xml".
Proof.
  intros accept. unfold accepts_html. rewrite StarFacts.html_accept_parsed.
  unfold test, exec.
  destruct (includes accept "text/html" || includes accept "application/xhtml+xml")
    eqn:E.
  - assert (Hi : exists i,
               String.prefix "text/html" (drop i accept) = true
               \/ String.prefix "application/xhtml+xml" (drop i accept) = true).
    { apply orb_true_iff in E as [E|E];
        apply StarFacts.includes_drop in E as [i Hi]; eauto. }
    destruct Hi as [i Hi].
    pose proof (RegExpFacts.exec_from_some (String.length accept) html_accept
                  accept i (StarFacts.html_accept_at _ _ Hi)) as Hsome.
    destruct (exec_from _ _ _); [reflexivity | contradiction].
  - destruct (exec_from _ _ _) as [m|] eqn:Hm; [|reflexivity].
    exfalso. apply RegExpFacts.exec_from_inv in Hm as (i & rest & Hrun).
    destruct (StarFacts.html_accept_inv (String.length accept) (drop i accept))
      as [j Hj]; [now rewrite Hrun|].
    rewrite StringFacts.drop_drop in Hj.
    apply orb_false_elim in E as [E1 E2].
    rewrite (StringFacts.includes_false_drop _ _ _ E1) in Hj.
    rewrite (StringFacts.includes_false_drop _ _ _ E2) in Hj.
    destruct Hj; discriminate.
Qed.

(** ** Which pathnames are routed *)

Module RoutedFacts.
Import StringFacts RegExpFacts RouteFacts StarFacts.

Lemma run_char (total : nat) (c : ascii) (s : string) (caps : captures) (k : cont) :
  run total (Char c) s caps k
  = match s with
    | String c' s' => if (c =? c')%char then k s' caps else None
    | EmptyString => None
    end.
Proof. reflexivity. Qed.

Lemma run_opt (total : nat) (r : regex) (s : string) (caps : captures) (k : cont) :
  run total (Repeat Opt true r) s caps k
  = orelse
      (run total r s (reset_captures (groups_of r) caps)
         (fun s' caps' =>
            if (String.length s' <? String.length s)%nat then k s' caps' else None))
      (k s caps).
Proof. reflexivity. Qed.

Lemma take_drop (i : nat) (s : string) : s = take i s ++ drop i s.
Proof.
  unfold take. revert s. induction i as [|i IH]; intros s.
  - rewrite drop_0. now destruct s.
  - destruct s as [|c s]; [reflexivity|]. simpl. now rewrite <- IH.
Qed.

Lemma consumed_same (s : string) : consumed s s = EmptyString.
Proof. unfold consumed, take. rewrite Nat.sub_diag. now destruct s. Qed.

(** Where an alternation of literal names succeeds, one of the names
    starts the text and what follows succeeded behind it. *)
Lemma run_alt_inv (total : nat) (names : list string) (s : string)
      (caps : captures) (k : cont) (y : string * captures) :
  run total (alt_list (map literal names)) s caps k = Some y ->
  (names = [] /\ k s caps = Some y)
  \/ exists n, In n names /\ String.prefix n s = true
               /\ k (drop (String.length n) s) caps = Some y.
Proof.
  induction names as [|n ns IH]; intros H; [now left|]. right.
  destruct ns as [|n2 ns].
  - cbn [map alt_list alt_of] in H. unfold literal in H.
    rewrite run_lits_only in H.
    destruct (String.prefix n s) eqn:E; [|discriminate H].
    exists n. repeat split; auto. now left.
  - change (alt_list (map literal (n :: n2 :: ns)))
      with (Alt (literal n) (alt_list (map literal (n2 :: ns)))) in H.
    rewrite run_alt in H.
    destruct (run total (literal n) s caps k) as [z|] eqn:E; cbn [orelse] in H.
    + injection H as ->. unfold literal in E. rewrite run_lits_only in E.
      destruct (String.prefix n s) eqn:Ep; [|discriminate E].
      exists n. repeat split; auto. now left.
    + destruct (IH H) as [[Hnil _]|(m & Hm & Hp & Hk)]; [discriminate Hnil|].
      exists m. repeat split; auto. now right.
Qed.

Lemma run_assert_end (total : nat) (s : string) (caps : captures) (k : cont) :
  run total AssertEnd s caps k
  = match s with
    | EmptyString => k s caps
    | String _ _ => None
    end.
Proof. reflexivity. Qed.

Lemma run_group_none (total : nat) (r : regex) (s : string) (caps : captures) (k : cont) :
  run total (Group None r) s caps k = run total r s caps k.
Proof. reflexivity. Qed.

Lemma after_suffix_inv (total : nat) (s : string) (caps : captures)
      (y : string * captures) :
  run total after_suffix s caps accept = Some y ->
  (exists x, snd y = (2, x) :: caps)
  /\ (s = EmptyString
      \/ exists c t, s = String c t /\ (c = "?" \/ c = "#")%char).
Proof.
  unfold after_suffix, terminator. cbn [seq_of alt_list alt_of].
  rewrite run_seq, run_group, !run_alt, !run_seq, !run_char, run_assert_end, !run_empty.
  intros H. split.
  - repeat match goal with
           | H : orelse ?a ?b = Some _ |- _ =>
               destruct a eqn:?; cbn [orelse] in H
           | H : match ?x with EmptyString => _ | String _ _ => _ end = Some _ |- _ =>
               destruct x
           | H : (if ?c then _ else _) = Some _ |- _ => destruct c
           | H : None = Some _ |- _ => discriminate H
           | H : run _ Empty _ _ _ = Some _ |- _ => rewrite run_empty in H
           | H : Some _ = Some _ |- _ => injection H as <-
           | H : run _ (Seq (Repeat Star true Dot) Empty) _ (set_capture _ _ _) accept
                 = Some _ |- _ =>
               apply run_final_star_inv in H; unfold set_capture in H
           end; eauto.
  - destruct s as [|c t]; [now left|]. right. exists c, t. split; [reflexivity|].
    destruct (Ascii.eqb_spec "?" c) as [<-|Hq]; [now left|].
    destruct (Ascii.eqb_spec "#" c) as [<-|Hh]; [now right|].
    cbn [orelse] in H. discriminate H.
Qed.

(** The optional [.htm] or [.html] hands over to what follows it, at the
    place it began or behind a suffix it consumed, with the captures it
    was entered with. *)
Lemma html_suffix_inv (total : nat) (s : string) (caps : captures) (k : cont)
      (y : string * captures) :
  run total html_suffix s caps k = Some y ->
  exists s', k s' caps = Some y /\ (s' = s \/ String.prefix ".htm" s = true).
Proof.
  unfold html_suffix. rewrite run_opt.
  cbn [groups_of seq_of app]. rewrite reset_captures_nil, run_group_none.
  change (Seq (Char ".") (Seq (Char "h") (Seq (Char "t") (Seq (Char "m")
            (Seq (Repeat Opt true (Char "l")) Empty)))))
    with (seq_of (lits ".htm" ++ [Repeat Opt true (Char "l")])).
  rewrite run_lits.
  destruct (String.prefix ".htm" s) eqn:Ep.
  - cbn [seq_of]. rewrite run_seq, run_opt. cbn [groups_of].
    rewrite reset_captures_nil, run_char, !run_empty.
    intros H.
    repeat match goal with
           | H : orelse ?a ?b = Some _ |- _ =>
               destruct a eqn:?; cbn [orelse] in H
           | H : match ?x with EmptyString => _ | String _ _ => _ end = Some _ |- _ =>
               destruct x
           | H : (if ?c then _ else _) = Some _ |- _ => destruct c
           | H : None = Some _ |- _ => discriminate H
           | H : run _ Empty _ _ _ = Some _ |- _ => rewrite run_empty in H
           | H : Some ?a = Some ?b |- _ => injection H as <-
           end; eauto.
  - cbn [orelse]. intros H. eauto.
Qed.

(** Where the text after a name is accepted, the first capture is kept,
    and the text is empty or begins with ".", "?" or "#". *)
Lemma after_name_inv (total : nat) (s : string) (caps : captures)
      (y : string * captures) :
  run total after_name s caps accept = Some y ->
  (exists x, snd y = (2, x) :: caps)
  /\ (s = EmptyString
      \/ exists c t, s = String c t /\ (c = "." \/ c = "?" \/ c = "#")%char).
Proof.
  unfold after_name. cbn [seq_of]. rewrite run_seq. intros H.
  apply html_suffix_inv in H as (s' & H & Hs').
  apply (after_suffix_inv total s' caps y) in H as [Hc Hs]. split; [exact Hc|].
  destruct Hs' as [->|Hp].
  - destruct Hs as [->|(c & t & -> & Hc')]; [now left|].
    right. exists c, t. split; [reflexivity | tauto].
  - destruct s as [|c t]; [now left|]. right. exists c, t. split; [reflexivity|].
    rewrite prefix_cons in Hp. apply andb_prop in Hp as [Hc' _].
    apply Ascii.eqb_eq in Hc'. auto.
Qed.

End RoutedFacts.

(** X13.  Let the [config] hook succeed, and let the prefix
    [normalizePath(`/${base}/`)] and every registered name hold no pattern
    syntax.  Then a pathname is routed to a served path [f] only where it
    holds the prefix followed by a registered, non-empty name whose served
    path is [f], and what follows the name is nothing or begins with ".",
    "?" or "#". *)
Theorem routed_path_holds_registered_name :
  forall (host : Host) (options : MpaOptions) (config_base : option string)
         (st st' : state) (r : ConfigResult) (pathname f : string),
    config options config_base st = (Ok r, st') ->
    literal_text (route_prefix config_base) ->
    Forall literal_text (keys (inputMap st')) ->
    fileName_of st' pathname = Own f ->
    exists key before after,
      own_get (own (inputMap st')) key = Some f
      /\ key <> EmptyString
      /\ pathname = before ++ route_prefix config_base ++ key ++ after
      /\ (after = EmptyString
          \/ exists c t, after = String c t /\ (c = "." \/ c = "?" \/ c = "#")%char).
Proof.
  intros host options config_base st st' r pathname f H Hprefix Hnames Hf.
  destruct (config_ok options _ _ _ _ H) as (re & Hre & _ & _ & Hproto & _).
  cbn [tempInputMap] in Hproto.
  pose proof (config_compiled options _ _ _ _ _ H Hre Hprefix Hnames) as Hc.
  unfold fileName_of, inputMapKey in Hf. rewrite Hre, Hc in Hf.
  destruct (exec _ pathname) as [m|] eqn:Hexec; [|discriminate Hf].
  destruct (group 1 m) as [key|] eqn:Hgroup; [|discriminate Hf].
  destruct (truthy key) eqn:Hkey; [|discriminate Hf].
  rewrite (JsObjectFacts.get_plain _ _ Hproto) in Hf.
  destruct (own_get (own (inputMap st')) key) as [v|] eqn:Hown;
    [|destruct (is_prototype_member key); discriminate Hf].
  injection Hf as ->.
  apply RegExpFacts.exec_from_inv in Hexec as (i & rest & Hrun).
  unfold composite in Hrun. rewrite RegExpFacts.run_lits in Hrun.
  destruct (String.prefix (route_prefix config_base) (drop i pathname)) eqn:Hp;
    [|discriminate Hrun].
  set (s1 := drop (String.length (route_prefix config_base)) (drop i pathname)) in *.
  unfold route_tail in Hrun. cbn [seq_of] in Hrun.
  rewrite StarFacts.run_seq, StarFacts.run_group in Hrun.
  change (Seq html_suffix (Seq terminator (Seq (Repeat Star true Dot) Empty)))
    with after_name in Hrun.
  apply RoutedFacts.run_alt_inv in Hrun
    as [[_ Hrun]|(n & Hn & Hpn & Hrun)];
    apply RoutedFacts.after_name_inv in Hrun as [[x Hcaps] Hafter];
    cbn [snd] in Hcaps; unfold group in Hgroup; rewrite Hcaps in Hgroup;
    cbn in Hgroup; injection Hgroup as <-.
  - rewrite RoutedFacts.consumed_same in Hkey. discriminate Hkey.
  - pose proof (StringFacts.prefix_split _ _ Hpn) as Hs1.
    assert (Hcons : consumed s1 (drop (String.length n) s1) = n).
    { rewrite Hs1 at 1. apply RegExpFacts.consumed_append. }
    rewrite Hcons in *.
    exists n, (take i pathname), (drop (String.length n) s1).
    repeat split; auto.
    + intros ->. discriminate Hkey.
    + rewrite <- Hs1. unfold s1.
      rewrite <- (StringFacts.prefix_split _ _ Hp).
      apply RoutedFacts.take_drop.
Qed.

Lemma routed_path_holds_registered_name_witness :
  exists key before after,
    own_get (own (inputMap Demo.configured_state)) key = Some "main.html"
    /\ key <> EmptyString
    /\ "/x/y/main.html?lang=en" = before ++ route_prefix (Some "/") ++ key ++ after
    /\ (after = EmptyString
        \/ exists c t, after = String c t /\ (c = "." \/ c = "?" \/ c = "#")%char).
Proof.
  apply (routed_path_holds_registered_name Demo.host Demo.rewriting_options
           (Some "/") initial_state Demo.configured_state
           {| optimizeDeps_entries := ["/src/main.ts"];
              rollup_input := inputMap Demo.configured_state |}
           "/x/y/main.html?lang=en" "main.html" eq_refl eq_refl).
  - repeat constructor.
  - reflexivity.
Defined.

(** ** What the [config] hook hands to Vite *)

(** X14.  Where the [config] hook succeeds, the build input is the name
    map it published, and the entries handed to the dependency optimizer
    are exactly the non-empty entries of the pages of the options, pages
    found by scanning apart; each of them starts with "/". *)
Theorem config_result_entries :
  forall (host : Host) (options : MpaOptions) (config_base : option string)
         (st st' : state) (r : ConfigResult),
    config options config_base st = (Ok r, st') ->
    rollup_input r = inputMap st'
    /\ (forall e, In e (optimizeDeps_entries r)
                  <-> exists p, In p (pages options)
                                /\ entry p = Some e /\ truthy e = true)
    /\ (forall e, In e (optimizeDeps_entries r) -> startsWith e "/" = true).
Proof.
  intros host options config_base st st' r H.
  unfold config in H.
  destruct (configInit options (pages options) st) as [[[]| |] st1] eqn:Hinit;
    try discriminate H.
  destruct (parse _) as [re| |]; try discriminate H.
  injection H as <- <-. cbn [rollup_input optimizeDeps_entries inputMap].
  assert (Hentries : forall e,
             In e (filter truthy
                     (map (fun v => default (entry v) EmptyString) (pages options)))
             <-> exists p, In p (pages options)
                           /\ entry p = Some e /\ truthy e = true).
  { intros e. rewrite filter_In, in_map_iff. split.
    - intros [(p & Hp & Hin) He]. exists p. split; [exact Hin|].
      destruct (entry p) as [e'|]; cbn [default] in Hp; subst e.
      + now split.
      + discriminate He.
    - intros (p & Hin & Hp & He). split; [|exact He].
      exists p. rewrite Hp. now split. }
  split; [reflexivity|]. split; [exact Hentries|].
  intros e He. apply Hentries in He as (p & Hin & Hp & He).
  published Hinit t Hloop.
  assert (Hvalid : ~ invalid_page p).
  { eapply configInit_loop_all_valid; [exact Hloop|].
    apply in_or_app. now left. }
  destruct (startsWith e "/") eqn:Hs; [reflexivity|].
  exfalso. apply Hvalid. right. right. now exists e.
Qed.

Lemma config_result_entries_witness :
  In "/src/main.ts"
     (optimizeDeps_entries
        {| optimizeDeps_entries := ["/src/main.ts"];
           rollup_input :=
             inputMap (snd (config (Demo.options_of [Demo.page "plain"; Demo.main_page])
                              (Some "/") initial_state)) |})
  /\ startsWith "/src/main.ts" "/" = true.
Proof.
  destruct (config_result_entries Demo.host
              (Demo.options_of [Demo.page "plain"; Demo.main_page]) (Some "/")
              initial_state
              (snd (config (Demo.options_of [Demo.page "plain"; Demo.main_page])
                      (Some "/") initial_state))
              {| optimizeDeps_entries := ["/src/main.ts"];
                 rollup_input :=
                   inputMap (snd (config (Demo.options_of [Demo.page "plain"; Demo.main_page])
                                    (Some "/") initial_state)) |}
              eq_refl)
    as (_ & Hentries & Hslash).
  assert (Hin : In "/src/main.ts"
                  (optimizeDeps_entries
                     {| optimizeDeps_entries := ["/src/main.ts"];
                        rollup_input :=
                          inputMap (snd (config (Demo.options_of
                                                   [Demo.page "plain"; Demo.main_page])
                                           (Some "/") initial_state)) |})).
  { apply Hentries. exists Demo.main_page. repeat split. right. now left. }
  split; [exact Hin | exact (Hslash _ Hin)].
Defined.

(** ** What a served response holds *)

(** X15.  In a table that [configInit] built, the handler answers for a
    served path of the name map only with the page as [transform] rendered
    it: the load gave a result that is not falsy, [transform] gave a text
    for its code, never [null], and the body is what [transformIndexHtml]
    made of that text, sent as "text/html" with status 200. *)
Theorem served_body_is_rendered :
  forall (host : Host) (options : MpaOptions) (ps : list Page) (st st' : state)
         (n f u original : string) (out : outcome),
    configInit options ps st = (Ok tt, st') ->
    own_get (own (inputMap st')) n = Some f ->
    serve st' u original f = Ok out ->
    exists loaded rendered html,
      pluginContainer_load f = Ok (Some loaded)
      /\ load_falsy (Some loaded) = false
      /\ transform st' (load_code loaded) f = Ok (Some rendered)
      /\ transformIndexHtml u rendered original = Ok html
      /\ out = Served f {| content_type := "text/html"; statusCode := 200;
                           body := html |}.
Proof.
  intros host options ps st st' n f u original out H Hn Hserve.
  published H t Hloop.
  destruct (configInit_loop_in_step _ _ _ Hloop (fresh_tables_in_step options))
    as [_ Hstep].
  cbn [publish inputMap] in Hn.
  destruct (Hstep n f Hn) as (page & Hget & _).
  unfold serve in Hserve.
  destruct (pluginContainer_load f) as [[loaded|]| |]; cbn [bind] in Hserve;
    try discriminate Hserve.
  destruct (load_falsy (Some loaded)) eqn:Hfalsy; [discriminate Hserve|].
  cbn [option_map default] in Hserve.
  destruct (transform (publish t st) (load_code loaded) f) as [[rendered|]| |] eqn:Ht;
    cbn [bind] in Hserve; try discriminate Hserve.
  - cbn [default] in Hserve.
    destruct (transformIndexHtml u rendered original) as [html| |] eqn:Hhtml;
      cbn [bind] in Hserve; try discriminate Hserve.
    injection Hserve as <-. exists loaded, rendered, html. repeat split; auto.
  - exfalso. unfold transform in Ht.
    cbn [publish virtualPageMap] in Ht. rewrite Hget in Ht. unfold render in Ht.
    destruct (resolvedConfig (publish t st)); [|discriminate Ht].
    destruct (ejs_render _ _ _ _); discriminate Ht.
Qed.

Lemma served_body_is_rendered_witness :
  exists loaded rendered html,
    pluginContainer_load "a.html" = Ok (Some loaded)
    /\ load_falsy (Some loaded) = false
    /\ transform Demo.ejs_state (load_code loaded) "a.html" = Ok (Some rendered)
    /\ transformIndexHtml "/a" rendered "/a" = Ok html
    /\ Served "a.html" {| content_type := "text/html"; statusCode := 200;
                          body := "<html><body></body></html>" |}
       = Served "a.html" {| content_type := "text/html"; statusCode := 200;
                            body := html |}.
Proof.
  apply (served_body_is_rendered Demo.host (Demo.options_of Demo.ejs_pages)
           Demo.ejs_pages (configResolved Demo.resolved initial_state)
           Demo.ejs_state "a" "a.html" "/a" "/a"
           (Served "a.html" {| content_type := "text/html"; statusCode := 200;
                               body := "<html><body></body></html>" |})
           eq_refl eq_refl eq_refl).
Defined.
